(** * native-sass: the style utilities of [src/utils.ts]

    A shallow embedding of the shorthand expanders, the value classifier,
    the shared-selector scoper and the merge step, with the properties the
    specification states about them.

    Modelling choices, in the order the file uses them.

    - JavaScript values are the inductive [jsval]: the primitives, opaque
      functions, arrays, arrays with holes, and objects (an object is the
      list of its properties, in the order [for ... in] visits them).
      Numbers are IEEE 754 doubles, Rocq's primitive [float]. Values are
      finite trees of plain data, without accessor properties or proxies.
    - A string is a sequence of code units, one Rocq character each: the
      characters below 128 are the ASCII code units, the characters above
      stand for other code units, which the program only copies, compares
      and hands to the engine. Splitting, [charAt] and [slice] work on code
      units; what depends on the Unicode tables, [toUpperCase] and [trim],
      and [JSON.stringify], which may throw, are taken from the engine, the
      class [Engine], which fixes them on ASCII strings only.
    - [throw new Error(`...`)] is the value [Throw (Error msg)], where [msg]
      is the template literal itself: its literal chunks and its
      interpolated expressions, in order.
    - The mappings that are read and written by name (the [map] of
      [handleSharedStyles], [nativeStyles]) are finite maps of finite maps,
      the own properties of the objects. A read [map[k]] goes through the
      prototype chain: the engine tells under which names the mapping
      inherits a value ([inherited]). The objects that are enumerated (the
      style object of [handleSharedStyles], the [sharedStylesMap] and its
      buckets) are the lists of their properties, in the order of the
      enumeration, since the order of the writes decides which one stays.
    - Code that mutates its argument runs in the monad [M]. A run returns,
      throws, or leaves the mapping: its next write is to a property of an
      inherited object, or to [__proto__]. What happens from there on
      depends on that object and is not modelled; the run ends with the
      mapping as it is at that write. *)

From Stdlib Require Import PrimFloat Ascii String.
From stdpp Require Import gmap strings list fin_maps pretty.

Set Warnings "-register-all".

(** ** Values *)

Inductive jsval : Type :=
| VUndefined
| VNull
| VBool (b : bool)
| VNumber (n : float)
| VString (s : string)
| VFunction (name : string)
| VArray (elems : list jsval)
| VObject (props : list (string * jsval))
| VSparseArray (slots : list (option jsval)).   (* an array with holes *)

(** A property map as an object literal builds it: properties in order. *)
Abbreviation object := (list (string * jsval)).

(** [typeof v] *)
Definition typeof (v : jsval) : string :=
  match v with
  | VUndefined => "undefined"
  | VNull => "object"
  | VBool _ => "boolean"
  | VNumber _ => "number"
  | VString _ => "string"
  | VFunction _ => "function"
  | VArray _ => "object"
  | VObject _ => "object"
  | VSparseArray _ => "object"
  end.

(** ToBoolean: [undefined], [null], [false], [0], [-0], [NaN] and the empty
    string are falsy, everything else is truthy. *)
Definition toBoolean (v : jsval) : bool :=
  match v with
  | VUndefined | VNull => false
  | VBool b => b
  | VNumber n => PrimFloat.eqb n n && negb (PrimFloat.eqb n 0)
  | VString s => negb (s =? "")%string
  | VFunction _ | VArray _ | VObject _ | VSparseArray _ => true
  end.

(** [Array.isArray(v)] *)
Definition isArray (v : jsval) : bool :=
  match v with VArray _ | VSparseArray _ => true | _ => false end.

(** [typeof (value) === 'object' && !Array.isArray(value)] *)
Definition isObject (v : jsval) : bool :=
  (typeof v =? "object")%string && negb (isArray v).

(** ** Exceptions *)

(** One piece of a template literal: literal text, or one of the
    interpolations that occur in the source. *)
Inductive piece : Type :=
| Lit (text : string)
| OfKey (key : string)          (* ${key} *)
| OfTypeof (ty : string)        (* ${typeof value} *)
| OfLength (n : nat)            (* ${value.length} *)
| OfJson (v : jsval).           (* ${JSON.stringify(value)} *)

Abbreviation message := (list piece).

Inductive error : Type :=
| Error (msg : message)         (* new Error(msg) *)
| TypeError                     (* raised by the language itself *)
| Thrown (v : jsval).           (* any other value, thrown by a method the
                                   engine calls *)

Inductive completion (A : Type) : Type :=
| Normal (a : A)
| Throw (e : error).
Arguments Normal {A} a.
Arguments Throw {A} e.

#[global] Instance completion_ret : MRet completion := @Normal.

#[global] Instance completion_bind : MBind completion := λ A B f c,
  match c with
  | Normal a => f a
  | Throw e => Throw e
  end.

#[global] Instance completion_fmap : FMap completion := λ A B f c,
  match c with
  | Normal a => Normal (f a)
  | Throw e => Throw e
  end.

(** ** Property access *)

(** [obj[name]] on an object given by its property list. *)
Fixpoint getOwn (props : object) (name : string) : jsval :=
  match props with
  | [] => VUndefined
  | (k, v) :: rest => if (k =? name)%string then v else getOwn rest name
  end.

(** [v.name]: a [TypeError] on [undefined] and [null]; the property of an
    object; [undefined] on the other values, whose prototypes have none of
    the names this program asks for. *)
Definition getMember (v : jsval) (name : string) : completion jsval :=
  match v with
  | VUndefined | VNull => Throw TypeError
  | VObject props => Normal (getOwn props name)
  | _ => Normal VUndefined
  end.

(** [a || b] and [a && b], on the completions of their operands: the right
    operand counts only when the left one does not decide. *)
Definition jsOr (a b : completion jsval) : completion jsval :=
  match a with
  | Normal x => if toBoolean x then a else b
  | Throw _ => a
  end.

Definition jsAnd (a b : completion jsval) : completion jsval :=
  match a with
  | Normal x => if toBoolean x then b else a
  | Throw _ => a
  end.

(** ** Strings *)

Definition isAsciiLower (c : ascii) : bool :=
  (97 <=? nat_of_ascii c)%nat && (nat_of_ascii c <=? 122)%nat.

(** [c.toUpperCase()] on one ASCII character. *)
Definition toUpperChar (c : ascii) : ascii :=
  if isAsciiLower c then ascii_of_nat (nat_of_ascii c - 32) else c.

(** [str.charAt(0)] and [str.slice(1)] *)
Definition charAt0 (str : string) : string :=
  match str with
  | EmptyString => ""
  | String c _ => String c ""
  end.

Definition slice1 (str : string) : string :=
  match str with
  | EmptyString => ""
  | String _ rest => rest
  end.

(** [str.toUpperCase()] on an ASCII string. *)
Fixpoint asciiToUpperCase (str : string) : string :=
  match str with
  | EmptyString => ""
  | String c rest => String (toUpperChar c) (asciiToUpperCase rest)
  end.

(** [str.split(sep)] for a one-character separator. *)
Fixpoint split (sep : ascii) (str : string) : list string :=
  match str with
  | EmptyString => [""]
  | String c rest =>
      if Ascii.eqb c sep then "" :: split sep rest
      else match split sep rest with
           | [] => [String c ""]
           | seg :: segs => String c seg :: segs
           end
  end.

(** White space and line terminators, within ASCII: TAB, LF, VT, FF, CR
    and the space. *)
Definition isWhiteSpace (c : ascii) : bool :=
  let n := nat_of_ascii c in
  ((9 <=? n)%nat && (n <=? 13)%nat) || (n =? 32)%nat.

Fixpoint trimStart (str : string) : string :=
  match str with
  | EmptyString => ""
  | String c rest => if isWhiteSpace c then trimStart rest else str
  end.

Fixpoint trimEnd (str : string) : string :=
  match str with
  | EmptyString => ""
  | String c rest =>
      match trimEnd rest with
      | EmptyString => if isWhiteSpace c then "" else String c ""
      | t => String c t
      end
  end.

(** [str.trim()] on an ASCII string. *)
Definition asciiTrim (str : string) : string := trimEnd (trimStart str).

(** Every code unit of the string is below 128. *)
Fixpoint isAscii (str : string) : bool :=
  match str with
  | EmptyString => true
  | String c rest => (nat_of_ascii c <? 128)%nat && isAscii rest
  end.

(** [list.includes(x)] on a list of strings. *)
Definition includes (l : list string) (x : string) : bool :=
  existsb (String.eqb x) l.
Arguments includes : simpl never.

(** ** The engine

    What the program takes from the JavaScript engine and cannot be read
    off the source:
    - [toUpperCase] and [trim], which follow the Unicode tables; on ASCII
      strings they are the functions above;
    - [JSON.stringify(v)], through [stringifyThrows v]: the exception it
      throws on [v] (a cycle, a [toJSON] that throws), if it throws; when it
      returns, its text is kept as the piece [OfJson v];
    - the prototype chain of the mappings, through [inherited k]: the
      mapping inherits a value under the name [k], so that [map[k]] is that
      value, truthy, when the mapping has no property of its own under
      [k]. For a plain object these are the members of
      [Object.prototype]. *)
Class Engine : Type := {
  toUpperCase : string → string;
  trim : string → string;
  stringifyThrows : jsval → option error;
  inherited : string → bool;
  toUpperCase_ascii :
    ∀ str, isAscii str = true → toUpperCase str = asciiToUpperCase str;
  trim_ascii : ∀ str, isAscii str = true → trim str = asciiTrim str
}.

(** [capitalize = (str) => str.charAt(0).toUpperCase() + str.slice(1)] *)
Definition capitalize `{Engine} (str : string) : string :=
  toUpperCase (charAt0 str) +:+ slice1 str.

(** ** Regular expressions

    [regex.test(s)] for a pattern anchored by [^] and [$] and built from
    characters, [\d], sequence, [?] and [+]: the whole of [s] is in the
    language of the pattern. The test runs the pattern's derivatives. *)

Inductive regex : Type :=
| Void
| Eps
| Chr (c : ascii)
| Digit                         (* \d *)
| Seq (r1 r2 : regex)
| Alt (r1 r2 : regex)
| Star (r : regex).

Definition Plus (r : regex) : regex := Seq r (Star r).   (* r+ *)
Definition Opt (r : regex) : regex := Alt r Eps.         (* r? *)

Definition isDigit (c : ascii) : bool :=
  (48 <=? nat_of_ascii c)%nat && (nat_of_ascii c <=? 57)%nat.

Fixpoint nullable (r : regex) : bool :=
  match r with
  | Void => false
  | Eps => true
  | Chr _ => false
  | Digit => false
  | Seq r1 r2 => nullable r1 && nullable r2
  | Alt r1 r2 => nullable r1 || nullable r2
  | Star _ => true
  end.

Fixpoint deriv (c : ascii) (r : regex) : regex :=
  match r with
  | Void => Void
  | Eps => Void
  | Chr d => if Ascii.eqb c d then Eps else Void
  | Digit => if isDigit c then Eps else Void
  | Seq r1 r2 =>
      if nullable r1 then Alt (Seq (deriv c r1) r2) (deriv c r2)
      else Seq (deriv c r1) r2
  | Alt r1 r2 => Alt (deriv c r1) (deriv c r2)
  | Star r1 => Seq (deriv c r1) (Star r1)
  end.

Fixpoint accepts (r : regex) (s : string) : bool :=
  match s with
  | EmptyString => nullable r
  | String c rest => accepts (deriv c r) rest
  end.

(** [/^(\d+(\.\d+)?)(%)?$/] *)
Definition dimensionPattern : regex :=
  Seq (Seq (Plus Digit) (Opt (Seq (Chr ".") (Plus Digit)))) (Opt (Chr "%")).

(** [pattern.test(v)]. The program calls it on strings only (the [typeof]
    guard in front of it); other values are not converted here. *)
Definition test (pattern : regex) (v : jsval) : bool :=
  match v with
  | VString s => accepts pattern s
  | _ => false
  end.

(** ** The value classifier *)

(** [value === 'auto'] and [value === null] *)
Definition strictEqString (v : jsval) (s : string) : bool :=
  match v with VString t => (t =? s)%string | _ => false end.

Definition strictEqNull (v : jsval) : bool :=
  match v with VNull => true | _ => false end.

(** The expression [isDimensionValue] returns. *)
Definition isDimensionValue_expr (value : jsval) : completion jsval :=
  jsOr (jsOr (jsOr (jsOr
    (Normal (VBool (typeof value =? "number")%string))
    (Normal (VBool (strictEqString value "auto"))))
    (jsAnd (Normal (VBool (typeof value =? "string")%string))
           (Normal (VBool (test dimensionPattern value)))))
    (Normal (VBool (strictEqNull value))))
    (jsAnd (Normal value)
           (f ← getMember value "addListener";
            Normal (VBool (typeof f =? "function")%string))).

(** [isDimensionValue(value): value is DimensionValue]: the type guard, as
    the boolean its callers ([if], [every]) read. *)
Definition isDimensionValue (value : jsval) : completion bool :=
  toBoolean <$> isDimensionValue_expr value.

(** ** Shorthand expanders *)

(** [ignoredKeys] and [specialShorthandKeys] *)
Definition ignoredKeys : list string := ["shadowOffset"].

Definition specialShorthandKeys : list string :=
  ["inset"; "margin"; "padding"; "gap"].

(** The slots of an array, when [Array.isArray(v)]: an element, or a
    hole. *)
Definition slotsOf (v : jsval) : option (list (option jsval)) :=
  match v with
  | VArray elems => Some (Some <$> elems)
  | VSparseArray slots => Some slots
  | _ => None
  end.

(** [arr.every(f)] for a callback that may throw: skips the holes, stops
    at the first element the callback rejects. *)
Fixpoint every (f : jsval → completion bool) (slots : list (option jsval))
    : completion bool :=
  match slots with
  | [] => Normal true
  | None :: rest => every f rest
  | Some x :: rest => b ← f x; if (b : bool) then every f rest else Normal false
  end.

(** An element of an array pattern [[a, b, c, d] = value]: the element at
    that index, [undefined] at a hole and past the end. *)
Definition element (i : nat) (slots : list (option jsval)) : jsval :=
  match slots !! i with
  | Some (Some v) => v
  | _ => VUndefined
  end.

(** The message of the last [throw] of the inset and spacing handlers. *)
Definition dimensionMessage (key : string) (value : jsval) : message :=
  [Lit "Invalid value for "; OfKey key;
   Lit ": Expected a number, 'auto', a percentage, or an array with only those values, got ";
   OfTypeof (typeof value); Lit "."].

(** [throw new Error(`Invalid value for inset: ${JSON.stringify(value)}`)]:
    the text is computed first, and its exception, if any, is the one
    thrown. *)
Definition insetLengthError `{Engine} (value : jsval) : error :=
  match stringifyThrows value with
  | Some e => e
  | None => Error [Lit "Invalid value for inset: "; OfJson value]
  end.

Definition handleShorthandInset `{Engine} (key : string) (value : jsval)
    : completion object :=
  scalar ← isDimensionValue value;
  if (scalar : bool) then
    Normal [("top", value); ("right", value); ("bottom", value); ("left", value)]
  else
    match slotsOf value with
    | Some slots =>
        all ← every isDimensionValue slots;
        if (all : bool) then
          let top := element 0 slots in
          let right := element 1 slots in
          let bottom := element 2 slots in
          let left := element 3 slots in
          match length slots with
          | 1 => Normal [("top", top); ("right", top); ("bottom", top); ("left", top)]
          | 2 => Normal [("top", top); ("right", right); ("bottom", top); ("left", right)]
          | 3 => Normal [("top", top); ("right", right); ("bottom", bottom); ("left", right)]
          | 4 => Normal [("top", top); ("right", right); ("bottom", bottom); ("left", left)]
          | _ => Throw (insetLengthError value)
          end
        else Throw (Error (dimensionMessage key value))
    | None => Throw (Error (dimensionMessage key value))
    end.

Definition handleShorthandSpacing (key : string) (value : jsval) : completion object :=
  scalar ← isDimensionValue value;
  if (scalar : bool) then
    Normal [(key +:+ "Vertical", value); (key +:+ "Horizontal", value)]
  else
    match slotsOf value with
    | Some slots =>
        all ← every isDimensionValue slots;
        if (all : bool) then
          let top := element 0 slots in
          let right := element 1 slots in
          let bottom := element 2 slots in
          let left := element 3 slots in
          match length slots with
          | 1 => Normal [(key, top)]
          | 2 => Normal [(key +:+ "Vertical", top); (key +:+ "Horizontal", right)]
          | 3 => Normal [(key +:+ "Top", top); (key +:+ "Horizontal", right);
                         (key +:+ "Bottom", bottom)]
          | 4 => Normal [(key +:+ "Top", top); (key +:+ "Right", right);
                         (key +:+ "Bottom", bottom); (key +:+ "Left", left)]
          | n => Throw (Error [Lit "Invalid "; OfKey key;
                               Lit " array length: Expected 1, 2, 3, or 4, got ";
                               OfLength n; Lit "."])
          end
        else Throw (Error (dimensionMessage key value))
    | None => Throw (Error (dimensionMessage key value))
    end.

Definition isNumber (v : jsval) : completion bool :=
  Normal (typeof v =? "number")%string.

Definition gapMessage (key : string) (value : jsval) : message :=
  [Lit "Invalid value for "; OfKey key;
   Lit ": Expected a number or an array of numbers, got ";
   OfTypeof (typeof value); Lit "."].

Definition handleShorthandGap (key : string) (value : jsval) : completion object :=
  if (typeof value =? "number")%string then Normal [("gap", value)]
  else
    match slotsOf value with
    | Some slots =>
        all ← every isNumber slots;
        if (all : bool) then
          let row := element 0 slots in
          let column := element 1 slots in
          match length slots with
          | 1 => Normal [("gap", row)]
          | 2 => Normal [("rowGap", row); ("columnGap", column)]
          | n => Throw (Error [Lit "Invalid gap array length: Expected 1 or 2, got ";
                               OfLength n; Lit "."])
          end
        else Throw (Error (gapMessage key value))
    | None => Throw (Error (gapMessage key value))
    end.

(** [shorthandHandlers[prop]] *)
Definition shorthandHandlers `{Engine} (prop : string)
    : option (string → jsval → completion object) :=
  if (prop =? "inset")%string then Some handleShorthandInset
  else if (prop =? "margin")%string then Some handleShorthandSpacing
  else if (prop =? "padding")%string then Some handleShorthandSpacing
  else if (prop =? "gap")%string then Some handleShorthandGap
  else None.
Arguments shorthandHandlers : simpl never.

(** ** Mutable style mappings *)

(** A bucket: the properties of one selector. A style mapping: selector to
    bucket. Both hold the own properties of the object. *)
Abbreviation bucket := (gmap string jsval).
Abbreviation styleMap := (gmap string (gmap string jsval)).

(** How a run ends: it returns, it throws, or it leaves the mapping, when
    its next write is to the property [prop] of the object the mapping
    inherits under [selector], or to the [__proto__] of the bucket of
    [selector]. *)
Inductive run (A : Type) : Type :=
| Returns (a : A)
| Throws (e : error)
| Leaves (selector prop : string).
Arguments Returns {A} a.
Arguments Throws {A} e.
Arguments Leaves {A} selector prop.

(** A computation takes the mapping, and gives how it ends with the
    mapping as it left it. *)
Definition M (A : Type) : Type := styleMap → run A * styleMap.

#[global] Instance M_ret : MRet M := λ A a s, (Returns a, s).

#[global] Instance M_bind : MBind M := λ A B f m s,
  match m s with
  | (Returns a, s') => f a s'
  | (Throws e, s') => (Throws e, s')
  | (Leaves selector prop, s') => (Leaves selector prop, s')
  end.

(** A completion, as the end of a run. *)
Definition ofCompletion {A} (c : completion A) : run A :=
  match c with
  | Normal a => Returns a
  | Throw e => Throws e
  end.

Definition lift {A} (c : completion A) : M A := λ s, (ofCompletion c, s).

(** The mapping a computation leaves. *)
Definition exec {A} (m : M A) (s : styleMap) : styleMap := (m s).2.

Fixpoint forEach {A} (f : A → M unit) (l : list A) : M unit :=
  match l with
  | [] => mret tt
  | x :: rest => f x;; forEach f rest
  end.

(** [if (!map[k]) map[k] = {}]: [map[k]] is the bucket the mapping has
    under [k], or else the value it inherits under [k]; both are truthy. *)
Definition ensureBucket `{Engine} (k : string) : M unit :=
  λ s, match s !! k with
       | Some _ => (Returns tt, s)
       | None =>
           if inherited k then (Returns tt, s)
           else (Returns tt, <[k := ∅]> s)
       end.

(** [map[k][prop] = v]: a write to the bucket of [k]; a write to the
    inherited object when the mapping has no bucket of its own under [k];
    a [TypeError] when [map[k]] is [undefined]. The name [__proto__] is not
    a property of a bucket but the accessor it inherits. *)
Definition setProp `{Engine} (k prop : string) (v : jsval) : M unit :=
  λ s, match s !! k with
       | Some b =>
           if (prop =? "__proto__")%string then (Leaves k prop, s)
           else (Returns tt, <[k := <[prop := v]> b]> s)
       | None =>
           if inherited k then (Leaves k prop, s)
           else (Throws TypeError, s)
       end.

(** The value of a bucket after [Object.assign(bucket, source)], when every
    write lands in the bucket: the properties of the source are written in
    turn. *)
Definition objectAssign (target : bucket) (source : object) : bucket :=
  foldl (λ b p, <[p.1 := p.2]> b) target source.

(** [Object.assign(map[k], source())]: the target is read first, then the
    source is computed, then its properties are written to the target in
    turn; a [TypeError] when the target is [undefined]. *)
Definition assignTo `{Engine} (k : string) (source : completion object) : M unit :=
  λ s, match s !! k, inherited k with
       | None, false =>
           match source with
           | Normal _ => (Throws TypeError, s)
           | Throw e => (Throws e, s)
           end
       | _, _ =>
           (src ← lift source; forEach (λ '(prop, v), setProp k prop v) src) s
       end.

(** The scoped key of one selector. *)
Definition scopedKey `{Engine} (parentKey selector : string) : string :=
  if toBoolean (VString parentKey) then parentKey +:+ capitalize selector
  else selector.

(** [key.split(',').map((s) => s.trim())] *)
Definition selectors `{Engine} (key : string) : list string :=
  trim <$> split "," key.

(** The body of [for (const prop in value)], for the property [prop] and
    its value [value[prop]]. *)
Definition handleProperty `{Engine} (scopedKey prop : string) (v : jsval) : M unit :=
  if includes specialShorthandKeys prop then
    match shorthandHandlers prop with
    | Some handler => assignTo scopedKey (handler prop v)
    | None => lift (Throw TypeError)
    end
  else setProp scopedKey prop v.

(** The callback of [selectors.forEach]. *)
Definition handleSelector `{Engine} (parentKey : string) (value : object)
    (selector : string) : M unit :=
  let scopedKey := scopedKey parentKey selector in
  ensureBucket scopedKey;;
  forEach (λ '(prop, v), handleProperty scopedKey prop v) value.

(** [value] is the style object, as the list of its properties. *)
Definition handleSharedStyles `{Engine} (key parentKey : string) (value : object)
    : M unit :=
  forEach (handleSelector parentKey value) (selectors key).

Definition assignFlatStyle `{Engine} (parentKey key : string) (value : jsval)
    : M unit :=
  ensureBucket parentKey;;
  setProp parentKey key value.


(** [sharedStylesMap] is the shared map as the list of its properties,
    and each of its buckets as the list of its own, in the order
    [for ... in] and [Object.assign] visit them. *)
Definition applySharedStyles `{Engine} (sharedStylesMap : list (string * object))
    : M unit :=
  forEach (λ '(selector, props),
    ensureBucket selector;;
    assignTo selector (Normal props))
  sharedStylesMap.

(** * The vocabulary of the specification *)

(** ** The language of a pattern *)

Inductive matches : regex → string → Prop :=
| MEps : matches Eps ""
| MChr c : matches (Chr c) (String c "")
| MDigit c : isDigit c = true → matches Digit (String c "")
| MSeq r1 r2 s1 s2 :
    matches r1 s1 → matches r2 s2 → matches (Seq r1 r2) (s1 +:+ s2)
| MAltL r1 r2 s : matches r1 s → matches (Alt r1 r2) s
| MAltR r1 r2 s : matches r2 s → matches (Alt r1 r2) s
| MStarNil r : matches (Star r) ""
| MStarApp r s1 s2 :
    matches r s1 → matches (Star r) s2 → matches (Star r) (s1 +:+ s2).

(** ** Dimension Values *)

Fixpoint allDigits (s : string) : bool :=
  match s with
  | EmptyString => true
  | String c rest => isDigit c && allDigits rest
  end.

(** One or more digits. *)
Definition digits (s : string) : Prop := s ≠ "" ∧ allDigits s = true.

(** One or more digits, an optional decimal fraction, an optional trailing
    percent sign. *)
Definition isPercentageString (s : string) : Prop :=
  ∃ whole fraction percent,
    s = whole +:+ fraction +:+ percent ∧
    digits whole ∧
    (fraction = "" ∨ ∃ ds, fraction = "." +:+ ds ∧ digits ds) ∧
    (percent = "" ∨ percent = "%").

(** A Dimension Value: a number, the string "auto", a percentage string,
    null, or an object whose [addListener] is callable. *)
Definition DimensionValue (v : jsval) : Prop :=
  (∃ n, v = VNumber n) ∨
  v = VString "auto" ∨
  (∃ s, v = VString s ∧ isPercentageString s) ∨
  v = VNull ∨
  (∃ props f, v = VObject props ∧ getOwn props "addListener" = VFunction f).

(** The classifier in closed form: it never throws, and its answer depends
    on the shape of the value only. *)
Definition dimensionValueb (v : jsval) : bool :=
  match v with
  | VNumber _ | VNull => true
  | VString s => (s =? "auto")%string || accepts dimensionPattern s
  | VObject props => (typeof (getOwn props "addListener") =? "function")%string
  | VUndefined | VBool _ | VFunction _ | VArray _ | VSparseArray _ => false
  end.

(** ** Errors *)

(** [sub] occurs in [s]. *)
Fixpoint contains (sub s : string) : bool :=
  String.prefix sub s ||
  match s with
  | EmptyString => false
  | String _ rest => contains sub rest
  end.

(** A set of lengths as the messages spell it: "1 or 2",
    "1, 2, 3, or 4". *)
Fixpoint orTail (l : list nat) : string :=
  match l with
  | [] => ""
  | [z] => "or " +:+ pretty z
  | y :: rest => pretty y +:+ ", " +:+ orTail rest
  end.

Definition orList (l : list nat) : string :=
  match l with
  | [] => ""
  | [a] => pretty a
  | [a; b] => pretty a +:+ " or " +:+ pretty b
  | a :: rest => pretty a +:+ ", " +:+ orTail rest
  end.

(** What a message carries: the key (interpolated, or spelled in the
    literal text), the set of expected lengths, the actual length, a
    description of the received value. *)
Definition namesKey (key : string) (msg : message) : Prop :=
  OfKey key ∈ msg ∨ ∃ text, Lit text ∈ msg ∧ contains key text = true.

Definition namesExpected (expected : list nat) (msg : message) : Prop :=
  ∃ text, Lit text ∈ msg ∧ contains ("Expected " +:+ orList expected) text = true.

Definition carriesLength (actual : nat) (msg : message) : Prop :=
  OfLength actual ∈ msg.

Definition describes (v : jsval) (msg : message) : Prop :=
  OfTypeof (typeof v) ∈ msg ∨ OfJson v ∈ msg.

(** The two kinds of error of the specification. *)
Definition InvalidShorthandLength (e : error) (expected : list nat) (actual : nat) : Prop :=
  ∃ msg, e = Error msg ∧ namesExpected expected msg ∧ carriesLength actual msg.

Definition InvalidShorthandValue (e : error) (key : string) (v : jsval) : Prop :=
  ∃ msg, e = Error msg ∧ namesKey key msg ∧ describes v msg.

(** An error that carries the key as well. *)
Definition carriesKey (e : error) (key : string) : Prop :=
  ∃ msg, e = Error msg ∧ namesKey key msg.

(** A number: a value whose [typeof] is "number". *)
Definition Number (v : jsval) : Prop := typeof v = "number".

(** ** The loops, on the value of one bucket *)

(** What [for (const prop in value)] does to the bucket it writes. *)
Fixpoint assignProps `{Engine} (value : object) (b : bucket) : completion unit * bucket :=
  match value with
  | [] => (Normal tt, b)
  | (prop, v) :: rest =>
      if includes specialShorthandKeys prop then
        match shorthandHandlers prop with
        | Some handler =>
            match handler prop v with
            | Normal src => assignProps rest (objectAssign b src)
            | Throw e => (Throw e, b)
            end
        | None => (Throw TypeError, b)
        end
      else assignProps rest (<[prop := v]> b)
  end.

(** The declared properties of a style object: its plain properties as
    they are, its shorthand properties expanded, in order. *)
Fixpoint declared `{Engine} (value : object) : completion object :=
  match value with
  | [] => Normal []
  | (prop, v) :: rest =>
      if includes specialShorthandKeys prop then
        match shorthandHandlers prop with
        | Some handler =>
            src ← handler prop v; more ← declared rest; Normal (src ++ more)
        | None => Throw TypeError
        end
      else more ← declared rest; Normal ((prop, v) :: more)
  end.

(** The bucket of a selector, empty when the selector has none. *)
Definition bucketOf (s : styleMap) (selector : string) : bucket :=
  default ∅ (s !! selector).

(** The bucket that holds the properties of an object, the last value of
    each name. *)
Definition bucketFrom (props : object) : bucket := objectAssign ∅ props.

(** A shared map given as a list, as a mapping. *)
Definition asMap (shared : list (string * object)) : styleMap :=
  bucketFrom <$> list_to_map shared.

(** An object in which no selector is repeated, none is inherited by the
    mappings, and no bucket has a property named [__proto__]. *)
Definition ownEntries `{Engine} (shared : list (string * object)) : Prop :=
  NoDup shared.*1 ∧
  Forall (λ entry, inherited entry.1 = false ∧ "__proto__" ∉ entry.2.*1) shared.

(** A call of [handleSharedStyles] whose writes stay in the buckets of the
    mapping: the style object has no property named [__proto__], and no
    scoped key names a property the mapping inherits. *)
Definition ownScope `{Engine} (key parentKey : string) (value : object) : Prop :=
  ("__proto__" ∉ value.*1) ∧
  (∀ selector, selector ∈ selectors key →
     inherited (scopedKey parentKey selector) = false).

(** The bucket the mapping has under a selector after [if (!map[k]) map[k]
    = {}]. *)
Definition ensured `{Engine} (s : styleMap) (selector : string) : option bucket :=
  if inherited selector then s !! selector else Some (bucketOf s selector).


(** ** Splitting and trimming *)



Fixpoint allWhite (s : string) : bool :=
  match s with
  | EmptyString => true
  | String c rest => isWhiteSpace c && allWhite rest
  end.

(** [t] is [raw] without the white space at its two ends. *)
Definition Trimmed (raw t : string) : Prop :=
  ∃ l r, raw = l +:+ t +:+ r ∧
         allWhite l = true ∧ allWhite r = true ∧
         (∀ c u, t = String c u → isWhiteSpace c = false) ∧
         (∀ u c, t = u +:+ String c "" → isWhiteSpace c = false).

(** The number of occurrences of a character. *)
Fixpoint countChar (c : ascii) (s : string) : nat :=
  match s with
  | EmptyString => 0
  | String d rest => (if Ascii.eqb d c then 1 else 0) + countChar c rest
  end.

(** Every character of the string passes the test. *)
Fixpoint forallChars (test : ascii → bool) (s : string) : bool :=
  match s with
  | EmptyString => true
  | String c rest => test c && forallChars test rest
  end.

(** Every element of the slots, holes apart, has the property. *)
Definition Present (P : jsval → Prop) (slots : list (option jsval)) : Prop :=
  Forall (λ slot, match slot with Some v => P v | None => True end) slots.

(** The same, for a test. *)
Definition presentb (test : jsval → bool) (slots : list (option jsval)) : bool :=
  forallb (λ slot, match slot with Some v => test v | None => true end) slots.

(** A digit, the decimal point or the percent sign. *)
Definition dimensionChar (c : ascii) : bool :=
  isDigit c || Ascii.eqb c "." || Ascii.eqb c "%".

(** ** A plain engine

    The members of [Object.prototype], which every plain object
    inherits. *)
Definition objectPrototypeNames : list string :=
  ["constructor"; "__defineGetter__"; "__defineSetter__"; "hasOwnProperty";
   "__lookupGetter__"; "__lookupSetter__"; "isPrototypeOf";
   "propertyIsEnumerable"; "toString"; "valueOf"; "__proto__";
   "toLocaleString"].

(** An engine for the examples: its mappings are plain objects; the
    characters above 127 stand for code units that have no case and are no
    white space, so that [toUpperCase] and [trim] are the ASCII functions;
    and [JSON.stringify] returns on its values (they have no cycle and no
    [toJSON] that throws). The examples use ASCII strings only. *)
Definition plainEngine : Engine :=
  {| toUpperCase := asciiToUpperCase;
     trim := asciiTrim;
     stringifyThrows := λ _, None;
     inherited := includes objectPrototypeNames;
     toUpperCase_ascii := λ _ _, eq_refl;
     trim_ascii := λ _ _, eq_refl |}.

(** * Properties *)

(** ** Strings *)

Lemma append_nil_l (s : string) : "" +:+ s = s.
Proof. reflexivity. Qed.

Lemma append_cons c (s t : string) : String c s +:+ t = String c (s +:+ t).
Proof. reflexivity. Qed.

Lemma append_nil_r (s : string) : s +:+ "" = s.
Proof.
  induction s as [|c s IH]; [done |]. by rewrite append_cons, IH.
Qed.

Lemma append_assoc (s1 s2 s3 : string) : (s1 +:+ s2) +:+ s3 = s1 +:+ (s2 +:+ s3).
Proof.
  induction s1 as [|c s1 IH]; [done |]. by rewrite !append_cons, IH.
Qed.

Lemma append_eq_nil (s1 s2 : string) : s1 +:+ s2 = "" → s1 = "" ∧ s2 = "".
Proof.
  destruct s1; [by rewrite append_nil_l | rewrite append_cons; discriminate].
Qed.

Lemma append_eq_cons (s1 s2 : string) c s :
  s1 +:+ s2 = String c s →
  (s1 = "" ∧ s2 = String c s) ∨ (∃ s1', s1 = String c s1' ∧ s = s1' +:+ s2).
Proof.
  intros H. destruct s1 as [|d s1]; [by left | right].
  rewrite append_cons in H. injection H as -> <-. by exists s1.
Qed.

Lemma nullable_matches r : nullable r = true ↔ matches r "".
Proof.
  induction r as [| | c | |r1 IH1 r2 IH2|r1 IH1 r2 IH2|r IH]; simpl.
  - split; [done | inversion 1].
  - split; [constructor | done].
  - split; [done | inversion 1].
  - split; [done | inversion 1].
  - rewrite andb_true_iff, IH1, IH2. split.
    + intros [H1 H2]. apply (MSeq _ _ "" "" H1 H2).
    + inversion 1 as [| | |? ? s1 s2 H1 H2 E1 E2| | | |]; subst.
      by destruct (append_eq_nil _ _ E2) as [-> ->].
  - rewrite orb_true_iff, IH1, IH2. split.
    + intros [H|H]; [by apply MAltL | by apply MAltR].
    + inversion 1; subst; auto.
  - split; [constructor | done].
Qed.

Lemma matches_deriv c r s : matches r (String c s) → matches (deriv c r) s.
Proof.
  intros H. remember (String c s) as cs eqn:E.
  revert s E. induction H as
    [|d|d Hd|r1 r2 s1 s2 H1 IH1 H2 IH2|r1 r2 t H IH|r1 r2 t H IH
     | |r s1 s2 H1 IH1 H2 IH2]; intros s E; simpl.
  - discriminate.
  - injection E as -> <-. rewrite Ascii.eqb_refl. constructor.
  - injection E as -> <-. rewrite Hd. constructor.
  - destruct (append_eq_cons _ _ _ _ E) as [[-> ->]|(s1' & -> & ->)].
    + apply nullable_matches in H1 as ->. apply MAltR. by apply IH2.
    + destruct (nullable r1).
      * apply MAltL. apply MSeq; [by apply IH1 | done].
      * apply MSeq; [by apply IH1 | done].
  - apply MAltL. by apply IH.
  - apply MAltR. by apply IH.
  - discriminate.
  - destruct (append_eq_cons _ _ _ _ E) as [[-> ->]|(s1' & -> & ->)].
    + by apply IH2.
    + apply MSeq; [by apply IH1 | done].
Qed.

Lemma deriv_matches c r s : matches (deriv c r) s → matches r (String c s).
Proof.
  revert s. induction r as [| | d | |r1 IH1 r2 IH2|r1 IH1 r2 IH2|r IH];
    simpl; intros s H.
  - inversion H.
  - inversion H.
  - destruct (Ascii.eqb_spec c d) as [->|]; inversion H; subst. constructor.
  - destruct (isDigit c) eqn:Hc; inversion H; subst. by constructor.
  - destruct (nullable r1) eqn:Hn.
    + inversion H as [| | | |? ? ? H'|? ? ? H'| |]; subst.
      * inversion H' as [| | |? ? s1 s2 Ha Hb| | | |]; subst.
        apply (MSeq _ _ (String c s1) s2); [by apply IH1 | done].
      * apply nullable_matches in Hn.
        apply (MSeq _ _ "" (String c s) Hn). by apply IH2.
    + inversion H as [| | |? ? s1 s2 Ha Hb| | | |]; subst.
      apply (MSeq _ _ (String c s1) s2); [by apply IH1 | done].
  - inversion H; subst; [apply MAltL | apply MAltR]; auto.
  - inversion H as [| | |? ? s1 s2 Ha Hb| | | |]; subst.
    apply (MStarApp _ (String c s1) s2); [by apply IH | done].
Qed.

(** The derivative test decides the language. *)
Lemma accepts_matches r s : accepts r s = true ↔ matches r s.
Proof.
  revert r. induction s as [|c s IH]; intros r; simpl.
  - apply nullable_matches.
  - rewrite IH. split; [apply deriv_matches | apply matches_deriv].
Qed.

(** ** The classifier against its description *)

Lemma matches_star_digit s : matches (Star Digit) s ↔ allDigits s = true.
Proof.
  split.
  - intros H. remember (Star Digit) as r eqn:E.
    induction H as [| | | | | | |r s1 s2 H1 _ H2 IH2]; try discriminate; [done |].
    injection E as ->. inversion H1 as [|?|c Hc| | | | |]; subst.
    rewrite append_cons, append_nil_l. simpl. rewrite Hc. by apply IH2.
  - induction s as [|c s IH]; simpl; intros H; [constructor |].
    apply andb_true_iff in H as [Hc Hs].
    apply (MStarApp Digit (String c "") s); [by constructor | by apply IH].
Qed.

Lemma matches_plus_digit s : matches (Plus Digit) s ↔ digits s.
Proof.
  unfold Plus, digits. split.
  - inversion 1 as [| | |? ? s1 s2 H1 H2| | | |]; subst.
    inversion H1 as [|?|c Hc| | | | |]; subst.
    rewrite append_cons, append_nil_l. split; [done |].
    simpl. rewrite Hc. by apply matches_star_digit.
  - intros [Hne H]. destruct s as [|c s]; [done |].
    simpl in H. apply andb_true_iff in H as [Hc Hs].
    apply (MSeq Digit (Star Digit) (String c "") s); [by constructor |].
    by apply matches_star_digit.
Qed.

Lemma matches_opt r s : matches (Opt r) s ↔ s = "" ∨ matches r s.
Proof.
  unfold Opt. split.
  - inversion 1 as [| | | |? ? ? H'|? ? ? H'| |]; subst; [by right |].
    inversion H'. by left.
  - intros [->|H]; [apply MAltR; constructor | by apply MAltL].
Qed.

Lemma matches_seq r1 r2 s :
  matches (Seq r1 r2) s ↔ ∃ s1 s2, s = s1 +:+ s2 ∧ matches r1 s1 ∧ matches r2 s2.
Proof.
  split.
  - inversion 1 as [| | |? ? s1 s2 H1 H2| | | |]; subst. by exists s1, s2.
  - intros (s1 & s2 & -> & H1 & H2). by constructor.
Qed.

Lemma matches_chr c s : matches (Chr c) s ↔ s = String c "".
Proof. split; [by inversion 1 | intros ->; constructor]. Qed.

(** The pattern of the source accepts exactly the percentage strings. *)
Lemma dimensionPattern_spec s :
  accepts dimensionPattern s = true ↔ isPercentageString s.
Proof.
  rewrite accepts_matches. unfold dimensionPattern, isPercentageString.
  rewrite matches_seq. split.
  - intros (s12 & pct & -> & H12 & Hp).
    apply matches_seq in H12 as (w & fr & -> & Hw & Hf).
    exists w, fr, pct. rewrite append_assoc. split; [done |].
    split; [by apply matches_plus_digit |]. split.
    + apply matches_opt in Hf as [->|Hf]; [by left | right].
      apply matches_seq in Hf as (d & ds & -> & Hd & Hds).
      apply matches_chr in Hd as ->. exists ds.
      split; [done | by apply matches_plus_digit].
    + apply matches_opt in Hp as [->|Hp]; [by left | right].
      by apply matches_chr in Hp.
  - intros (w & fr & pct & -> & Hw & Hf & Hp).
    exists (w +:+ fr), pct. rewrite append_assoc. split; [done |]. split.
    + apply matches_seq. exists w, fr. split; [done |].
      split; [by apply matches_plus_digit |].
      apply matches_opt. destruct Hf as [->|(ds & -> & Hds)]; [by left | right].
      apply matches_seq. exists ".", ds. split; [done |].
      split; [by apply matches_chr | by apply matches_plus_digit].
    + apply matches_opt. destruct Hp as [->| ->]; [by left | right].
      by apply matches_chr.
Qed.

Lemma isDimensionValue_closed v : isDimensionValue v = Normal (dimensionValueb v).
Proof.
  destruct v as [| |b|n|s|f|elems|props|slots]; try reflexivity.
  - destruct b; reflexivity.
  - unfold isDimensionValue, isDimensionValue_expr. simpl.
    destruct (s =? "auto")%string; [reflexivity |]. simpl.
    destruct (accepts dimensionPattern s); [reflexivity |]. simpl.
    destruct s; reflexivity.
Qed.

Lemma typeof_function v :
  (typeof v =? "function")%string = true ↔ ∃ f, v = VFunction f.
Proof.
  split; [|by intros [f ->]].
  destruct v; simpl; try discriminate. by eexists.
Qed.

Lemma dimensionValueb_iff v : dimensionValueb v = true ↔ DimensionValue v.
Proof.
  unfold DimensionValue. split.
  - destruct v as [| |b|n|s|f|elems|props|slots]; simpl; try discriminate; intros H.
    + by right; right; right; left.
    + left. by exists n.
    + apply orb_true_iff in H as [H|H].
      * apply String.eqb_eq in H as ->. by right; left.
      * right; right; left. exists s. split; [done |].
        by apply dimensionPattern_spec.
    + right; right; right; right. apply typeof_function in H as [f Hf].
      by exists props, f.
  - intros [[n ->]|[->|[(s & -> & Hs)|[->|(props & f & -> & Hf)]]]]; simpl;
      try done.
    + apply orb_true_iff. right. by apply dimensionPattern_spec.
    + by rewrite Hf.
Qed.

Lemma isDimensionValue_true v : isDimensionValue v = Normal true ↔ DimensionValue v.
Proof.
  rewrite isDimensionValue_closed, <- dimensionValueb_iff.
  split; [by intros [= ->] | by intros ->].
Qed.

Lemma isDimensionValue_false v : ¬ DimensionValue v → isDimensionValue v = Normal false.
Proof.
  rewrite isDimensionValue_closed, <- dimensionValueb_iff.
  by destruct (dimensionValueb v).
Qed.

(** The value [isDimensionValue] returns: [true] on a Dimension Value; on
    another value, the value itself when it is falsy (the last operand of
    the [&&]), and [false] when it is truthy. *)
Lemma isDimensionValue_expr_closed v :
  isDimensionValue_expr v =
    Normal (if dimensionValueb v then VBool true
            else if toBoolean v then VBool false else v).
Proof.
  destruct v as [| |b|n|s|f|elems|props|slots]; try reflexivity.
  - destruct b; reflexivity.
  - unfold isDimensionValue_expr. simpl.
    destruct (s =? "auto")%string; [reflexivity |]. simpl.
    destruct (accepts dimensionPattern s); [reflexivity |]. simpl.
    destruct s; reflexivity.
  - unfold isDimensionValue_expr. simpl.
    destruct (typeof (getOwn props "addListener") =? "function")%string;
      reflexivity.
Qed.

(** C4, as the code has it. [isDimensionValue] never throws, and as a
    function of its argument alone it has no effect. It returns [true]
    exactly on a number, the string "auto", a string of one or more digits
    with an optional decimal fraction and an optional trailing percent
    sign, [null], and an object whose [addListener] is callable. On every
    other input it returns a falsy value, which its callers read as
    [false]: the input itself when the input is falsy ([undefined], the
    empty string, [false]), and [false] otherwise. *)
Theorem isDimensionValue_returns (v : jsval) :
  (isDimensionValue_expr v = Normal (VBool true) ↔ DimensionValue v) ∧
  (¬ DimensionValue v →
     isDimensionValue_expr v = Normal (if toBoolean v then VBool false else v)) ∧
  (¬ DimensionValue v → isDimensionValue v = Normal false) ∧
  (∃ r, isDimensionValue_expr v = Normal r).
Proof.
  rewrite isDimensionValue_expr_closed, <- dimensionValueb_iff.
  split; [|split; [|split]].
  - destruct (dimensionValueb v) eqn:Hv; [done |]. split; [|done].
    destruct (toBoolean v) eqn:Ht; [discriminate |].
    intros [= ->]. discriminate Ht.
  - by destruct (dimensionValueb v).
  - intros Hv. apply isDimensionValue_false. by rewrite <- dimensionValueb_iff.
  - by eexists.
Qed.

(** ** Shorthand expanders *)

Lemma every_isDimensionValue vs :
  Forall DimensionValue vs → every isDimensionValue (Some <$> vs) = Normal true.
Proof.
  induction 1 as [|v vs Hv _ IH]; [done |]. simpl.
  apply isDimensionValue_true in Hv. by rewrite Hv.
Qed.

Lemma DimensionValue_array vs : ¬ DimensionValue (VArray vs).
Proof.
  intros [[n H]|[H|[(s & H & _)|[H|(props & f & H & _)]]]]; discriminate.
Qed.

(** The array branch of the inset and spacing handlers is entered, with
    every element accepted. *)
Lemma inset_array `{Engine} key vs :
  Forall DimensionValue vs →
  handleShorthandInset key (VArray vs) =
    match length vs with
    | 1 => Normal [("top", element 0 (Some <$> vs)); ("right", element 0 (Some <$> vs));
                   ("bottom", element 0 (Some <$> vs)); ("left", element 0 (Some <$> vs))]
    | 2 => Normal [("top", element 0 (Some <$> vs)); ("right", element 1 (Some <$> vs));
                   ("bottom", element 0 (Some <$> vs)); ("left", element 1 (Some <$> vs))]
    | 3 => Normal [("top", element 0 (Some <$> vs)); ("right", element 1 (Some <$> vs));
                   ("bottom", element 2 (Some <$> vs)); ("left", element 1 (Some <$> vs))]
    | 4 => Normal [("top", element 0 (Some <$> vs)); ("right", element 1 (Some <$> vs));
                   ("bottom", element 2 (Some <$> vs)); ("left", element 3 (Some <$> vs))]
    | _ => Throw (insetLengthError (VArray vs))
    end.
Proof.
  intros Hv. unfold handleShorthandInset. simpl.
  by rewrite (every_isDimensionValue vs Hv), length_fmap.
Qed.

Lemma spacing_array key vs :
  Forall DimensionValue vs →
  handleShorthandSpacing key (VArray vs) =
    match length vs with
    | 1 => Normal [(key, element 0 (Some <$> vs))]
    | 2 => Normal [(key +:+ "Vertical", element 0 (Some <$> vs));
                   (key +:+ "Horizontal", element 1 (Some <$> vs))]
    | 3 => Normal [(key +:+ "Top", element 0 (Some <$> vs));
                   (key +:+ "Horizontal", element 1 (Some <$> vs));
                   (key +:+ "Bottom", element 2 (Some <$> vs))]
    | 4 => Normal [(key +:+ "Top", element 0 (Some <$> vs));
                   (key +:+ "Right", element 1 (Some <$> vs));
                   (key +:+ "Bottom", element 2 (Some <$> vs));
                   (key +:+ "Left", element 3 (Some <$> vs))]
    | n => Throw (Error [Lit "Invalid "; OfKey key;
                         Lit " array length: Expected 1, 2, 3, or 4, got ";
                         OfLength n; Lit "."])
    end.
Proof.
  intros Hv. unfold handleShorthandSpacing. simpl.
  by rewrite (every_isDimensionValue vs Hv), length_fmap.
Qed.

(** C1. [handleShorthandInset] maps a Dimension Value to the four sides
    all set to it, and a sequence of one to four Dimension Values by corner
    inheritance: one value for all four sides; two values for top and
    bottom, and for right and left; three values for top, for right and
    left, and for bottom; four values for top, right, bottom and left. *)
Theorem handleShorthandInset_expands `{Engine} (key : string) :
  (∀ v, DimensionValue v →
     handleShorthandInset key v =
       Normal [("top", v); ("right", v); ("bottom", v); ("left", v)]) ∧
  (∀ a, Forall DimensionValue [a] →
     handleShorthandInset key (VArray [a]) =
       Normal [("top", a); ("right", a); ("bottom", a); ("left", a)]) ∧
  (∀ a b, Forall DimensionValue [a; b] →
     handleShorthandInset key (VArray [a; b]) =
       Normal [("top", a); ("right", b); ("bottom", a); ("left", b)]) ∧
  (∀ a b c, Forall DimensionValue [a; b; c] →
     handleShorthandInset key (VArray [a; b; c]) =
       Normal [("top", a); ("right", b); ("bottom", c); ("left", b)]) ∧
  (∀ a b c d, Forall DimensionValue [a; b; c; d] →
     handleShorthandInset key (VArray [a; b; c; d]) =
       Normal [("top", a); ("right", b); ("bottom", c); ("left", d)]).
Proof.
  split; [|split; [|split; [|split]]; intros; by rewrite inset_array].
  intros v Hv. apply isDimensionValue_true in Hv.
  unfold handleShorthandInset. by rewrite Hv.
Qed.

(** A closed Dimension Value is recognised by evaluation. *)
Ltac dimension := apply dimensionValueb_iff; reflexivity.
Ltac not_listed :=
  let H := fresh in
  intros H; repeat (apply elem_of_cons in H as [H|H]; [discriminate H |]);
  by apply elem_of_nil in H.
Ltac dimensions := repeat (apply Forall_cons_2; [dimension |]); apply Forall_nil_2.

(** C2. [handleShorthandSpacing] maps a Dimension Value to the vertical
    and horizontal properties of the key, and a sequence of Dimension
    Values by its length: one value to the bare key; two to vertical and
    horizontal; three to top, horizontal and bottom; four to top, right,
    bottom and left. With the key "margin" or "padding" these are the
    margin and padding properties. *)
Theorem handleShorthandSpacing_expands (key : string) :
  (∀ v, DimensionValue v →
     handleShorthandSpacing key v =
       Normal [(key +:+ "Vertical", v); (key +:+ "Horizontal", v)]) ∧
  (∀ a, Forall DimensionValue [a] →
     handleShorthandSpacing key (VArray [a]) = Normal [(key, a)]) ∧
  (∀ a b, Forall DimensionValue [a; b] →
     handleShorthandSpacing key (VArray [a; b]) =
       Normal [(key +:+ "Vertical", a); (key +:+ "Horizontal", b)]) ∧
  (∀ a b c, Forall DimensionValue [a; b; c] →
     handleShorthandSpacing key (VArray [a; b; c]) =
       Normal [(key +:+ "Top", a); (key +:+ "Horizontal", b);
               (key +:+ "Bottom", c)]) ∧
  (∀ a b c d, Forall DimensionValue [a; b; c; d] →
     handleShorthandSpacing key (VArray [a; b; c; d]) =
       Normal [(key +:+ "Top", a); (key +:+ "Right", b);
               (key +:+ "Bottom", c); (key +:+ "Left", d)]).
Proof.
  split; [|split; [|split; [|split]]; intros; by rewrite spacing_array].
  intros v Hv. apply isDimensionValue_true in Hv.
  unfold handleShorthandSpacing. by rewrite Hv.
Qed.

(** C7. On a sequence of Dimension Values whose length is not 1, 2, 3 or
    4, [handleShorthandSpacing] throws: no property map is returned, and
    the error names the key, the expected lengths 1, 2, 3, or 4 and the
    actual length. *)
Theorem handleShorthandSpacing_length (key : string) (vs : list jsval) :
  Forall DimensionValue vs →
  length vs ∉ [1; 2; 3; 4] →
  ∃ e, handleShorthandSpacing key (VArray vs) = Throw e ∧
       InvalidShorthandLength e [1; 2; 3; 4] (length vs) ∧
       carriesKey e key ∧
       ∀ o, handleShorthandSpacing key (VArray vs) ≠ Normal o.
Proof.
  intros Hd Hlen. rewrite (spacing_array key vs Hd).
  set (msg := [Lit "Invalid "; OfKey key;
               Lit " array length: Expected 1, 2, 3, or 4, got ";
               OfLength (length vs); Lit "."]).
  assert (Hmsg : match length vs with
                 | 1 => Normal [(key, element 0 (Some <$> vs))]
                 | 2 => Normal [(key +:+ "Vertical", element 0 (Some <$> vs));
                                (key +:+ "Horizontal", element 1 (Some <$> vs))]
                 | 3 => Normal [(key +:+ "Top", element 0 (Some <$> vs));
                                (key +:+ "Horizontal", element 1 (Some <$> vs));
                                (key +:+ "Bottom", element 2 (Some <$> vs))]
                 | 4 => Normal [(key +:+ "Top", element 0 (Some <$> vs));
                                (key +:+ "Right", element 1 (Some <$> vs));
                                (key +:+ "Bottom", element 2 (Some <$> vs));
                                (key +:+ "Left", element 3 (Some <$> vs))]
                 | n => Throw (Error [Lit "Invalid "; OfKey key;
                                      Lit " array length: Expected 1, 2, 3, or 4, got ";
                                      OfLength n; Lit "."])
                 end = Throw (Error msg)).
  { subst msg. destruct (length vs) as [|[|[|[|[|n]]]]]; try done;
      exfalso; apply Hlen; set_solver. }
  rewrite Hmsg. exists (Error msg). split; [done |]. split; [|split].
  - exists msg. split; [done |]. split.
    + exists " array length: Expected 1, 2, 3, or 4, got ".
      split; [subst msg; set_solver | reflexivity].
    + subst msg. unfold carriesLength. set_solver.
  - exists msg. split; [done |]. left. subst msg. set_solver.
  - done.
Qed.

Lemma inset_message_reading vs :
  let msg := [Lit "Invalid value for inset: "; OfJson (VArray vs)] in
  namesKey "inset" msg ∧ describes (VArray vs) msg ∧
  ¬ namesExpected [1; 2; 3; 4] msg ∧ ∀ actual, ¬ carriesLength actual msg.
Proof.
  intros msg. subst msg. split; [|split; [|split]].
  - right. exists "Invalid value for inset: ". split; [set_solver | reflexivity].
  - right. set_solver.
  - intros (text & Hin & Hc).
    apply elem_of_cons in Hin as [[= ->]|Hin]; [discriminate Hc |].
    apply elem_of_cons in Hin as [Hin|Hin]; [discriminate Hin |].
    by apply elem_of_nil in Hin.
  - intros actual Hin. unfold carriesLength in Hin.
    apply elem_of_cons in Hin as [Hin|Hin]; [discriminate Hin |].
    apply elem_of_cons in Hin as [Hin|Hin]; [discriminate Hin |].
    by apply elem_of_nil in Hin.
Qed.

Lemma inset_array_length `{Engine} key vs :
  Forall DimensionValue vs →
  length vs ∉ [1; 2; 3; 4] →
  handleShorthandInset key (VArray vs) = Throw (insetLengthError (VArray vs)).
Proof.
  intros Hd Hlen. rewrite (inset_array key vs Hd).
  destruct (length vs) as [|[|[|[|[|n]]]]]; try done;
    exfalso; apply Hlen; set_solver.
Qed.

(** C6, as the code has it. On a sequence of Dimension Values whose length
    is not 1, 2, 3 or 4, [handleShorthandInset] returns no property map. It
    throws what [JSON.stringify] throws on the sequence, when that throws;
    otherwise it throws the error "Invalid value for inset: " followed by
    the JSON text of the sequence, which names inset and describes the
    received value, as an InvalidShorthandValue does, and carries no
    length, expected or actual. *)
Theorem handleShorthandInset_length `{Engine} (key : string) (vs : list jsval) :
  Forall DimensionValue vs →
  length vs ∉ [1; 2; 3; 4] →
  (∀ o, handleShorthandInset key (VArray vs) ≠ Normal o) ∧
  (∀ e, stringifyThrows (VArray vs) = Some e →
        handleShorthandInset key (VArray vs) = Throw e) ∧
  (stringifyThrows (VArray vs) = None →
   ∃ e, handleShorthandInset key (VArray vs) = Throw e ∧
        e = Error [Lit "Invalid value for inset: "; OfJson (VArray vs)] ∧
        InvalidShorthandValue e "inset" (VArray vs) ∧
        ∀ expected actual, ¬ InvalidShorthandLength e expected actual).
Proof.
  intros Hd Hlen. rewrite (inset_array_length key vs Hd Hlen).
  unfold insetLengthError. split; [done |]. split.
  - by intros e ->.
  - intros ->.
    destruct (inset_message_reading vs) as (Hk & Hv & _ & Hl).
    eexists. split; [done |]. split; [done |]. split.
    + by eexists.
    + intros expected actual (msg & [= <-] & _ & Hc). by apply (Hl actual).
Qed.

Lemma every_isNumber slots :
  every isNumber slots =
    Normal (forallb (λ slot, match slot with
                             | Some v => (typeof v =? "number")%string
                             | None => true
                             end) slots).
Proof.
  induction slots as [|[v|] slots IH]; [done | | exact IH]. simpl.
  destruct (typeof v =? "number")%string; [exact IH | done].
Qed.

Lemma forallb_Number vs :
  forallb (λ v, typeof v =? "number")%string vs = true ↔ Forall Number vs.
Proof.
  rewrite forallb_forall, Forall_forall. unfold Number.
  split; intros H v Hv.
  - apply String.eqb_eq, H. by apply list_elem_of_In.
  - apply String.eqb_eq, H. by apply list_elem_of_In.
Qed.

Lemma forallb_dense (f : jsval → bool) vs :
  forallb (λ slot, match slot with Some v => f v | None => true end) (Some <$> vs) =
    forallb f vs.
Proof. induction vs as [|v vs IH]; [done |]. csimpl. by rewrite IH. Qed.

Lemma gap_array key vs :
  handleShorthandGap key (VArray vs) =
    if forallb (λ v, typeof v =? "number")%string vs then
      match length vs with
      | 1 => Normal [("gap", element 0 (Some <$> vs))]
      | 2 => Normal [("rowGap", element 0 (Some <$> vs));
                     ("columnGap", element 1 (Some <$> vs))]
      | n => Throw (Error [Lit "Invalid gap array length: Expected 1 or 2, got ";
                           OfLength n; Lit "."])
      end
    else Throw (Error (gapMessage key (VArray vs))).
Proof.
  unfold handleShorthandGap. simpl.
  rewrite every_isNumber, forallb_dense, length_fmap.
  by destruct (forallb _ vs).
Qed.

Lemma gapMessage_value key v : InvalidShorthandValue (Error (gapMessage key v)) key v.
Proof.
  exists (gapMessage key v). split; [done |].
  split; [left | left]; unfold gapMessage; set_solver.
Qed.

(** C3. [handleShorthandGap] maps a number to the gap property; a
    sequence of one number to the gap property and of two numbers to the
    row and column gaps; a sequence of numbers of any other length throws
    an InvalidShorthandLength naming gap, the expected lengths 1 or 2 and
    the actual length; a value that is neither a number nor an array, and an
    array with an element that is not a number, throw an
    InvalidShorthandValue naming the key and the type of the value. *)
Theorem handleShorthandGap_spec (key : string) :
  (∀ v, Number v → handleShorthandGap key v = Normal [("gap", v)]) ∧
  (∀ a, Forall Number [a] →
     handleShorthandGap key (VArray [a]) = Normal [("gap", a)]) ∧
  (∀ r c, Forall Number [r; c] →
     handleShorthandGap key (VArray [r; c]) =
       Normal [("rowGap", r); ("columnGap", c)]) ∧
  (∀ vs, Forall Number vs → length vs ∉ [1; 2] →
     ∃ e, handleShorthandGap key (VArray vs) = Throw e ∧
          InvalidShorthandLength e [1; 2] (length vs) ∧ carriesKey e "gap") ∧
  (∀ v, ¬ Number v → isArray v = false →
     ∃ e, handleShorthandGap key v = Throw e ∧ InvalidShorthandValue e key v) ∧
  (∀ vs, ¬ Forall Number vs →
     ∃ e, handleShorthandGap key (VArray vs) = Throw e ∧
          InvalidShorthandValue e key (VArray vs)).
Proof.
  split; [|split; [|split; [|split; [|split]]]].
  - intros v Hv. unfold handleShorthandGap. by rewrite Hv.
  - intros a Ha. apply forallb_Number in Ha. by rewrite gap_array, Ha.
  - intros r c Hrc. apply forallb_Number in Hrc. by rewrite gap_array, Hrc.
  - intros vs Hvs Hlen. apply forallb_Number in Hvs. rewrite gap_array, Hvs.
    set (msg := [Lit "Invalid gap array length: Expected 1 or 2, got ";
                 OfLength (length vs); Lit "."]).
    exists (Error msg). split.
    + subst msg. destruct (length vs) as [|[|[|n]]]; try done;
        exfalso; apply Hlen; set_solver.
    + split.
      * exists msg. split; [done |]. split.
        -- exists "Invalid gap array length: Expected 1 or 2, got ".
           split; [subst msg; set_solver | reflexivity].
        -- subst msg. unfold carriesLength. set_solver.
      * exists msg. split; [done |]. right.
        exists "Invalid gap array length: Expected 1 or 2, got ".
        split; [subst msg; set_solver | reflexivity].
  - intros v Hn Ha. exists (Error (gapMessage key v)).
    split; [|apply gapMessage_value].
    unfold Number in Hn. destruct v; simpl in *; done.
  - intros vs Hn. exists (Error (gapMessage key (VArray vs))).
    split; [|apply gapMessage_value].
    rewrite gap_array. destruct (forallb _ vs) eqn:Hf; [|done].
    by apply forallb_Number in Hf.
Qed.

(** ** Buckets *)

Lemma objectAssign_app b src1 src2 :
  objectAssign b (src1 ++ src2) = objectAssign (objectAssign b src1) src2.
Proof. unfold objectAssign. apply foldl_app. Qed.

Lemma objectAssign_union b src :
  objectAssign b src = list_to_map (reverse src) ∪ b.
Proof.
  revert b. induction src as [|[p v] src IH]; intros b.
  - simpl. by rewrite (left_id_L ∅ (∪)).
  - change (objectAssign b ((p, v) :: src)) with (objectAssign (<[p:=v]> b) src).
    rewrite IH, reverse_cons, list_to_map_app. simpl.
    rewrite <- (assoc_L (∪)). f_equal.
    by rewrite <- insert_union_l, (left_id_L ∅ (∪)).
Qed.

Lemma union_absorb (m b : bucket) : m ∪ (m ∪ b) = m ∪ b.
Proof.
  apply map_eq. intros i. rewrite !lookup_union.
  by destruct (m !! i), (b !! i).
Qed.

(** Assigning the same properties a second time changes nothing. *)
Lemma objectAssign_idemp b src :
  objectAssign (objectAssign b src) src = objectAssign b src.
Proof. rewrite !objectAssign_union. apply union_absorb. Qed.

(** [Object.assign] from a bucket: the union, the source first. *)
Lemma objectAssign_bucket (b src : bucket) :
  objectAssign b (map_to_list src) = src ∪ b.
Proof.
  rewrite objectAssign_union. f_equal.
  rewrite <- (list_to_map_to_list src) at 2.
  apply list_to_map_proper.
  - rewrite fmap_reverse, reverse_Permutation. apply NoDup_fst_map_to_list.
  - apply reverse_Permutation.
Qed.

Lemma objectAssign_lookup_last b src p v :
  objectAssign b (src ++ [(p, v)]) !! p = Some v.
Proof. rewrite objectAssign_app. simpl. apply lookup_insert_eq. Qed.


Lemma objectAssign_bucketFrom (b : bucket) (props : object) :
  objectAssign b props = bucketFrom props ∪ b.
Proof.
  unfold bucketFrom. rewrite !objectAssign_union.
  by rewrite (right_id_L ∅ (∪)).
Qed.

(** ** The expanders, in closed form *)

Lemma every_isDimensionValue_closed slots :
  every isDimensionValue slots = Normal (presentb dimensionValueb slots).
Proof.
  induction slots as [|[v|] slots IH]; [done | | exact IH]. simpl.
  rewrite isDimensionValue_closed. simpl.
  destruct (dimensionValueb v); [exact IH | done].
Qed.

Lemma presentb_Present test (P : jsval → Prop) slots :
  (∀ v, test v = true ↔ P v) →
  presentb test slots = true ↔ Present P slots.
Proof.
  intros Htest. unfold presentb, Present.
  induction slots as [|slot slots IH]; simpl.
  - split; [intros _; apply Forall_nil_2 | done].
  - rewrite andb_true_iff, IH. split.
    + intros [Hs Hrest]. apply Forall_cons_2; [|done].
      destruct slot; [by apply Htest | done].
    + intros H. apply Forall_cons in H as [Hs Hrest]. split; [|done].
      destruct slot; [by apply Htest | done].
Qed.

Lemma presentb_DimensionValue slots :
  presentb dimensionValueb slots = true ↔ Present DimensionValue slots.
Proof. apply presentb_Present, dimensionValueb_iff. Qed.

Lemma presentb_Number slots :
  presentb (λ v, typeof v =? "number")%string slots = true ↔ Present Number slots.
Proof. apply presentb_Present. intros v. apply String.eqb_eq. Qed.

Lemma inset_closed `{Engine} key v :
  handleShorthandInset key v =
    if dimensionValueb v then
      Normal [("top", v); ("right", v); ("bottom", v); ("left", v)]
    else
      match slotsOf v with
      | Some slots =>
          if presentb dimensionValueb slots then
            match length slots with
            | 1 => Normal [("top", element 0 slots); ("right", element 0 slots);
                           ("bottom", element 0 slots); ("left", element 0 slots)]
            | 2 => Normal [("top", element 0 slots); ("right", element 1 slots);
                           ("bottom", element 0 slots); ("left", element 1 slots)]
            | 3 => Normal [("top", element 0 slots); ("right", element 1 slots);
                           ("bottom", element 2 slots); ("left", element 1 slots)]
            | 4 => Normal [("top", element 0 slots); ("right", element 1 slots);
                           ("bottom", element 2 slots); ("left", element 3 slots)]
            | _ => Throw (insetLengthError v)
            end
          else Throw (Error (dimensionMessage key v))
      | None => Throw (Error (dimensionMessage key v))
      end.
Proof.
  unfold handleShorthandInset. rewrite isDimensionValue_closed. simpl.
  destruct (dimensionValueb v); [done |].
  destruct (slotsOf v) as [slots|]; [|done].
  rewrite every_isDimensionValue_closed. simpl.
  by destruct (presentb dimensionValueb slots).
Qed.

Lemma spacing_closed key v :
  handleShorthandSpacing key v =
    if dimensionValueb v then
      Normal [(key +:+ "Vertical", v); (key +:+ "Horizontal", v)]
    else
      match slotsOf v with
      | Some slots =>
          if presentb dimensionValueb slots then
            match length slots with
            | 1 => Normal [(key, element 0 slots)]
            | 2 => Normal [(key +:+ "Vertical", element 0 slots);
                           (key +:+ "Horizontal", element 1 slots)]
            | 3 => Normal [(key +:+ "Top", element 0 slots);
                           (key +:+ "Horizontal", element 1 slots);
                           (key +:+ "Bottom", element 2 slots)]
            | 4 => Normal [(key +:+ "Top", element 0 slots);
                           (key +:+ "Right", element 1 slots);
                           (key +:+ "Bottom", element 2 slots);
                           (key +:+ "Left", element 3 slots)]
            | n => Throw (Error [Lit "Invalid "; OfKey key;
                                 Lit " array length: Expected 1, 2, 3, or 4, got ";
                                 OfLength n; Lit "."])
            end
          else Throw (Error (dimensionMessage key v))
      | None => Throw (Error (dimensionMessage key v))
      end.
Proof.
  unfold handleShorthandSpacing. rewrite isDimensionValue_closed. simpl.
  destruct (dimensionValueb v); [done |].
  destruct (slotsOf v) as [slots|]; [|done].
  rewrite every_isDimensionValue_closed. simpl.
  by destruct (presentb dimensionValueb slots).
Qed.

Lemma gap_closed key v :
  handleShorthandGap key v =
    if (typeof v =? "number")%string then Normal [("gap", v)]
    else
      match slotsOf v with
      | Some slots =>
          if presentb (λ v, typeof v =? "number")%string slots then
            match length slots with
            | 1 => Normal [("gap", element 0 slots)]
            | 2 => Normal [("rowGap", element 0 slots); ("columnGap", element 1 slots)]
            | n => Throw (Error [Lit "Invalid gap array length: Expected 1 or 2, got ";
                                 OfLength n; Lit "."])
            end
          else Throw (Error (gapMessage key v))
      | None => Throw (Error (gapMessage key v))
      end.
Proof.
  unfold handleShorthandGap.
  destruct (typeof v =? "number")%string; [done |].
  destruct (slotsOf v) as [slots|]; [|done].
  rewrite every_isNumber. simpl. unfold presentb.
  by destruct (forallb _ slots).
Qed.

(** The names of the properties a handler returns. *)
Lemma inset_names `{Engine} key v o :
  handleShorthandInset key v = Normal o →
  o.*1 = ["top"; "right"; "bottom"; "left"].
Proof.
  rewrite inset_closed. destruct (dimensionValueb v); [by intros [= <-] |].
  destruct (slotsOf v) as [slots|]; [|done].
  destruct (presentb _ slots); [|done].
  destruct (length slots) as [|[|[|[|[|n]]]]]; try done; by intros [= <-].
Qed.

Lemma spacing_names key v o :
  handleShorthandSpacing key v = Normal o →
  o.*1 = [key +:+ "Vertical"; key +:+ "Horizontal"] ∨
  o.*1 = [key] ∨
  o.*1 = [key +:+ "Top"; key +:+ "Horizontal"; key +:+ "Bottom"] ∨
  o.*1 = [key +:+ "Top"; key +:+ "Right"; key +:+ "Bottom"; key +:+ "Left"].
Proof.
  rewrite spacing_closed. destruct (dimensionValueb v); [intros [= <-]; by left |].
  destruct (slotsOf v) as [slots|]; [|done].
  destruct (presentb _ slots); [|done].
  destruct (length slots) as [|[|[|[|[|n]]]]]; try done; intros [= <-]; auto.
Qed.

Lemma gap_names key v o :
  handleShorthandGap key v = Normal o →
  o.*1 = ["gap"] ∨ o.*1 = ["rowGap"; "columnGap"].
Proof.
  rewrite gap_closed. destruct (typeof v =? "number")%string; [intros [= <-]; by left |].
  destruct (slotsOf v) as [slots|]; [|done].
  destruct (presentb _ slots); [|done].
  destruct (length slots) as [|[|[|n]]]; try done; intros [= <-]; auto.
Qed.

(** No handler of the table returns a property named [__proto__]. *)
Lemma handler_names `{Engine} prop handler v src :
  shorthandHandlers prop = Some handler →
  handler prop v = Normal src →
  "__proto__" ∉ src.*1.
Proof.
  unfold shorthandHandlers.
  destruct (String.eqb_spec prop "inset") as [->|_].
  { intros [= <-] Ho. rewrite (inset_names _ _ _ Ho). not_listed. }
  destruct (String.eqb_spec prop "margin") as [->|_].
  { intros [= <-] Ho.
    destruct (spacing_names _ _ _ Ho) as [->|[->|[->| ->]]]; not_listed. }
  destruct (String.eqb_spec prop "padding") as [->|_].
  { intros [= <-] Ho.
    destruct (spacing_names _ _ _ Ho) as [->|[->|[->| ->]]]; not_listed. }
  destruct (String.eqb_spec prop "gap") as [->|_]; [|done].
  intros [= <-] Ho. destruct (gap_names _ _ _ Ho) as [->| ->]; not_listed.
Qed.

(** ** Splitting and trimming *)

Lemma split_nonempty sep s : split sep s ≠ [].
Proof.
  destruct s as [|c s]; simpl; [done |].
  destruct (Ascii.eqb c sep); [done |]. by destruct (split sep s).
Qed.



(** The segments of an ASCII string are ASCII. *)
Lemma split_isAscii sep s :
  isAscii s = true → Forall (λ seg, isAscii seg = true) (split sep s).
Proof.
  induction s as [|c s IH]; simpl; intros Hs.
  - by apply Forall_cons_2.
  - apply andb_true_iff in Hs as [Hc Hs]. specialize (IH Hs).
    destruct (Ascii.eqb c sep); [by apply Forall_cons_2 |].
    destruct (split sep s) as [|seg segs].
    + apply Forall_cons_2; [|done]. simpl. by rewrite Hc.
    + apply Forall_cons in IH as [Hseg Hsegs].
      apply Forall_cons_2; [|done]. simpl. by rewrite Hc, Hseg.
Qed.

Lemma trimStart_spec s :
  ∃ l, s = l +:+ trimStart s ∧ allWhite l = true ∧
       ∀ c u, trimStart s = String c u → isWhiteSpace c = false.
Proof.
  induction s as [|c s (l & Hs & Hl & Hfirst)]; simpl.
  - by exists "".
  - destruct (isWhiteSpace c) eqn:Hc.
    + exists (String c l). rewrite append_cons, <- Hs. simpl. by rewrite Hc, Hl.
    + exists "". split; [done |]. split; [done |]. by intros c' u [= <- _].
Qed.

Lemma trimEnd_spec s :
  ∃ r, s = trimEnd s +:+ r ∧ allWhite r = true ∧
       ∀ u c, trimEnd s = u +:+ String c "" → isWhiteSpace c = false.
Proof.
  induction s as [|c s (r & Hs & Hr & Hlast)]; simpl.
  - exists "". split; [done |]. split; [done |].
    intros u c' H. symmetry in H. by apply append_eq_nil in H as [_ ?].
  - destruct (trimEnd s) as [|d t] eqn:Ht.
    + rewrite append_nil_l in Hs. subst r.
      destruct (isWhiteSpace c) eqn:Hc.
      * exists (String c s). split; [done |]. simpl. rewrite Hc, Hr.
        split; [done |]. intros u c' H. symmetry in H.
        by apply append_eq_nil in H as [_ ?].
      * exists s. split; [done |]. split; [done |]. intros u c' H.
        symmetry in H. apply append_eq_cons in H as [[_ [= <-]]|(u' & _ & H)].
        -- exact Hc.
        -- symmetry in H. by apply append_eq_nil in H as [_ ?].
    + exists r. split; [by rewrite append_cons, <- Hs |]. split; [done |].
      intros u c' H. symmetry in H.
      apply append_eq_cons in H as [[_ ?]|(u' & _ & H)]; [done |].
      by apply (Hlast u').
Qed.

Lemma trimEnd_first c u s :
  s = String c u → isWhiteSpace c = false → ∃ u', trimEnd s = String c u'.
Proof.
  intros -> Hc. simpl. destruct (trimEnd u); rewrite ?Hc; by eexists.
Qed.

(** On ASCII, [trim] removes the white space at the two ends, and nothing
    else. *)
Lemma asciiTrim_Trimmed s : Trimmed s (asciiTrim s).
Proof.
  unfold Trimmed, asciiTrim.
  destruct (trimStart_spec s) as (l & Hs & Hl & Hfirst).
  destruct (trimEnd_spec (trimStart s)) as (r & Ht & Hr & Hlast).
  exists l, r. split; [by rewrite <- Ht |]. split; [done |]. split; [done |].
  split; [|exact Hlast].
  intros c u Hcu. destruct (trimStart s) as [|d t] eqn:Hd; [done |].
  destruct (trimEnd_first d t (String d t) eq_refl (Hfirst d t eq_refl)) as [u' Hu'].
  rewrite Hu' in Hcu. injection Hcu as <- _. by apply (Hfirst d t).
Qed.


Lemma scopedKey_eq `{Engine} parentKey selector :
  scopedKey parentKey selector =
    if decide (parentKey = "") then selector else parentKey +:+ capitalize selector.
Proof.
  unfold scopedKey. simpl. destruct (String.eqb_spec parentKey "") as [->|Hne].
  - done.
  - by rewrite decide_False.
Qed.

Lemma toUpperCase_char `{Engine} c :
  isAscii (String c "") = true → toUpperCase (String c "") = String (toUpperChar c) "".
Proof. intros Hc. by rewrite (toUpperCase_ascii _ Hc). Qed.

(** ** Runs *)

Lemma forEach_cons {A} (f : A → M unit) x l (s : styleMap) :
  forEach f (x :: l) s =
    match f x s with
    | (Returns _, s') => forEach f l s'
    | (Throws e, s') => (Throws e, s')
    | (Leaves selector prop, s') => (Leaves selector prop, s')
    end.
Proof. reflexivity. Qed.

(** The writes of [Object.assign] land in the bucket, when the target is a
    bucket of the mapping and no property is named [__proto__]. *)
Lemma forEach_setProp `{Engine} k (src : object) (s : styleMap) (b : bucket) :
  s !! k = Some b →
  "__proto__" ∉ src.*1 →
  forEach (λ '(prop, v), setProp k prop v) src s =
    (Returns tt, <[k := objectAssign b src]> s).
Proof.
  revert s b. induction src as [|[prop v] src IH]; intros s b Hb Hnames.
  - simpl. unfold mret, M_ret. by rewrite insert_id.
  - rewrite fmap_cons, not_elem_of_cons in Hnames. destruct Hnames as [Hprop Hnames].
    rewrite forEach_cons. unfold setProp at 1. rewrite Hb.
    destruct (String.eqb_spec prop "__proto__") as [->|_]; [done |].
    rewrite (IH _ (<[prop:=v]> b)); [|apply lookup_insert_eq | done].
    by rewrite insert_insert_eq.
Qed.

Lemma assignTo_own `{Engine} k (src : object) (s : styleMap) (b : bucket) :
  s !! k = Some b →
  "__proto__" ∉ src.*1 →
  assignTo k (Normal src) s = (Returns tt, <[k := objectAssign b src]> s).
Proof.
  intros Hb Hnames. unfold assignTo. rewrite Hb.
  unfold mbind, M_bind, lift. simpl.
  by apply forEach_setProp.
Qed.

Lemma assignTo_throw `{Engine} k e (s : styleMap) :
  assignTo k (Throw e) s = (Throws e, s).
Proof. unfold assignTo. by destruct (s !! k), (inherited k). Qed.

(** The loop over the properties writes one bucket, as [assignProps] says,
    and leaves the rest of the mapping alone. *)
Lemma forEach_props `{Engine} sk value (s : styleMap) (b : bucket) :
  s !! sk = Some b →
  "__proto__" ∉ value.*1 →
  forEach (λ '(prop, v), handleProperty sk prop v) value s =
    (ofCompletion (assignProps value b).1, <[sk := (assignProps value b).2]> s).
Proof.
  revert s b. induction value as [|[prop v] value IH]; intros s b Hb Hnames.
  - simpl. unfold mret, M_ret. by rewrite insert_id.
  - rewrite fmap_cons, not_elem_of_cons in Hnames. destruct Hnames as [Hprop Hnames].
    rewrite forEach_cons. cbn [assignProps]. unfold handleProperty.
    destruct (includes specialShorthandKeys prop).
    + destruct (shorthandHandlers prop) as [handler|] eqn:Hh.
      * destruct (handler prop v) as [src|e] eqn:Hsrc.
        -- rewrite (assignTo_own sk src s b Hb (handler_names _ _ _ _ Hh Hsrc)).
           rewrite (IH _ (objectAssign b src)); [|apply lookup_insert_eq | done].
           by rewrite insert_insert_eq.
        -- rewrite assignTo_throw. simpl. by rewrite insert_id.
      * unfold lift. simpl. by rewrite insert_id.
    + unfold setProp at 1. rewrite Hb.
      destruct (String.eqb_spec prop "__proto__") as [->|_]; [done |].
      rewrite (IH _ (<[prop:=v]> b)); [|apply lookup_insert_eq | done].
      by rewrite insert_insert_eq.
Qed.

Lemma handleSelector_run `{Engine} parentKey value selector (s : styleMap) :
  inherited (scopedKey parentKey selector) = false →
  "__proto__" ∉ value.*1 →
  handleSelector parentKey value selector s =
    (ofCompletion (assignProps value (bucketOf s (scopedKey parentKey selector))).1,
     <[scopedKey parentKey selector :=
         (assignProps value (bucketOf s (scopedKey parentKey selector))).2]> s).
Proof.
  intros Hi Hnames.
  unfold handleSelector, ensureBucket, mbind, M_bind, bucketOf.
  destruct (s !! scopedKey parentKey selector) as [b|] eqn:Hb; simpl.
  - by rewrite (forEach_props _ _ _ b Hb Hnames).
  - rewrite Hi. rewrite (forEach_props _ _ _ ∅); [|apply lookup_insert_eq | done].
    by rewrite insert_insert_eq.
Qed.

Lemma assignProps_declared `{Engine} value props (b : bucket) :
  declared value = Normal props →
  assignProps value b = (Normal tt, objectAssign b props).
Proof.
  revert props b. induction value as [|[prop v] value IH]; intros props b; simpl.
  - by intros [= <-].
  - destruct (includes specialShorthandKeys prop).
    + destruct (shorthandHandlers prop) as [handler|]; [|done].
      destruct (handler prop v) as [src|e]; [|done]. simpl.
      destruct (declared value) as [more|e]; [|done]. simpl. intros [= <-].
      by rewrite (IH more), objectAssign_app.
    + destruct (declared value) as [more|e]; [|done]. simpl. intros [= <-].
      by rewrite (IH more).
Qed.











(** ** The shared-selector scoper *)

(** Every special shorthand key has its handler: the dispatch of
    [handleProperty] never calls [undefined]. *)
Lemma shorthandHandlers_special `{Engine} prop :
  includes specialShorthandKeys prop = true → is_Some (shorthandHandlers prop).
Proof.
  unfold includes, specialShorthandKeys, shorthandHandlers. simpl.
  destruct (prop =? "inset")%string; [by eexists |].
  destruct (prop =? "margin")%string; [by eexists |].
  destruct (prop =? "padding")%string; [by eexists |].
  destruct (prop =? "gap")%string; [by eexists | done].
Qed.


(** When every shorthand of the style object expands, the loop returns
    and every scoped key holds its former bucket with the declared
    properties assigned. *)
Lemma forEach_selectors_declared `{Engine} parentKey value props sels (s : styleMap) :
  declared value = Normal props →
  "__proto__" ∉ value.*1 →
  Forall (λ sel, inherited (scopedKey parentKey sel) = false) sels →
  (forEach (handleSelector parentKey value) sels s).1 = Returns tt ∧
  ∀ k, (forEach (handleSelector parentKey value) sels s).2 !! k =
       if decide (k ∈ scopedKey parentKey <$> sels)
       then Some (objectAssign (bucketOf s k) props)
       else s !! k.
Proof.
  intros Hd Hnames Hsels. revert s.
  induction Hsels as [|sel sels Hsel _ IH]; intros s.
  - split; [done |]. intros k. rewrite fmap_nil.
    by rewrite decide_False by apply not_elem_of_nil.
  - rewrite forEach_cons, (handleSelector_run _ _ _ _ Hsel Hnames).
    rewrite (assignProps_declared _ _ _ Hd). simpl.
    destruct (IH (<[scopedKey parentKey sel :=
                      objectAssign (bucketOf s (scopedKey parentKey sel)) props]> s))
      as [IH1 IH2].
    split; [exact IH1 |]. intros k. rewrite IH2. unfold bucketOf.
    destruct (decide (k = scopedKey parentKey sel)) as [->|Hne].
    + rewrite lookup_insert_eq. simpl. rewrite objectAssign_idemp.
      rewrite (decide_True (P := _ ∈ _ :: _)) by (apply elem_of_cons; by left).
      by destruct (decide (_ ∈ _)).
    + rewrite lookup_insert_ne by done.
      destruct (decide (k ∈ scopedKey parentKey <$> sels)) as [Hin|Hin].
      * rewrite decide_True; [done | apply elem_of_cons; by right].
      * rewrite decide_False; [done |].
        rewrite not_elem_of_cons. by split.
Qed.



(** ** The merge step *)

(** One entry of the shared map: the bucket is created when absent, and
    the shared properties are written over its own. *)
Lemma applySharedStyles_step `{Engine} selector (props : object) (s : styleMap) :
  inherited selector = false →
  "__proto__" ∉ props.*1 →
  (ensureBucket selector;; assignTo selector (Normal props)) s =
    (Returns tt, <[selector := bucketFrom props ∪ bucketOf s selector]> s).
Proof.
  intros Hi Hnames. unfold mbind, M_bind, ensureBucket, bucketOf.
  destruct (s !! selector) as [b|] eqn:Hb; simpl.
  - by rewrite (assignTo_own _ _ _ b Hb Hnames), objectAssign_bucketFrom.
  - rewrite Hi.
    rewrite (assignTo_own _ _ _ ∅); [|apply lookup_insert_eq | done].
    by rewrite objectAssign_bucketFrom, insert_insert_eq.
Qed.

(** The loop of [applySharedStyles]: it returns, and every selector of the
    shared map ends with the shared properties over its own. *)
Lemma applySharedStyles_run `{Engine} (shared : list (string * object)) (s : styleMap) :
  ownEntries shared →
  (applySharedStyles shared s).1 = Returns tt ∧
  ∀ k, (applySharedStyles shared s).2 !! k =
       match asMap shared !! k with
       | Some props => Some (props ∪ bucketOf s k)
       | None => s !! k
       end.
Proof.
  unfold applySharedStyles, ownEntries, asMap. intros [Hnd Hown]. revert s Hnd.
  induction Hown as [|[sel props] shared [Hi Hnames] _ IH]; intros s Hnd.
  - split; [done |]. intros k. simpl. by rewrite fmap_empty, lookup_empty.
  - rewrite fmap_cons, NoDup_cons in Hnd. destruct Hnd as [Hsel Hnd].
    rewrite forEach_cons. cbv beta iota.
    rewrite (applySharedStyles_step sel props s Hi Hnames).
    destruct (IH (<[sel := bucketFrom props ∪ bucketOf s sel]> s) Hnd) as [IH1 IH2].
    split; [exact IH1 |]. intros k. rewrite IH2, list_to_map_cons, fmap_insert.
    unfold bucketOf.
    destruct (decide (k = sel)) as [->|Hne].
    + rewrite !lookup_insert_eq, lookup_fmap.
      by rewrite (not_elem_of_list_to_map_1 shared sel Hsel).
    + by rewrite !lookup_insert_ne.
Qed.

Lemma applySharedStyles_lookup `{Engine} (shared : list (string * object)) native k :
  ownEntries shared →
  exec (applySharedStyles shared) native !! k =
    match asMap shared !! k with
    | Some props => Some (props ∪ bucketOf native k)
    | None => native !! k
    end.
Proof. intros Hown. by apply applySharedStyles_run. Qed.






(** * Further properties of the code *)

(** ** The helpers *)

(** X1. [isObject] answers true exactly on [null] and on objects that are
    not arrays: [typeof null] is "object", so [null] passes. *)
Theorem isObject_iff (v : jsval) :
  isObject v = true ↔ v = VNull ∨ ∃ props, v = VObject props.
Proof.
  split.
  - destruct v; try discriminate; intros _; [by left | right; by eexists].
  - by intros [->|[props ->]].
Qed.

(** X2. The list of special shorthand keys and the table of handlers name
    the same properties: a property is a special shorthand key exactly
    when it has a handler. *)
Theorem specialShorthandKeys_handlers `{Engine} (prop : string) :
  includes specialShorthandKeys prop = true ↔ is_Some (shorthandHandlers prop).
Proof.
  split; [apply shorthandHandlers_special |].
  unfold includes, specialShorthandKeys, shorthandHandlers. simpl.
  destruct (prop =? "inset")%string; [done |].
  destruct (prop =? "margin")%string; [done |].
  destruct (prop =? "padding")%string; [done |].
  destruct (prop =? "gap")%string; [done |].
  by intros [h Hh].
Qed.

(** ** The expanders, on every input *)

(** What the array pattern reads: an element that passed the test of
    [every], or the [undefined] of a hole or of a missing element. *)
Lemma element_Present (P : jsval → Prop) i slots :
  Present P slots → P (element i slots) ∨ element i slots = VUndefined.
Proof.
  intros H. unfold element.
  destruct (slots !! i) as [[v|]|] eqn:Hi; [|by right..].
  left. unfold Present in H. rewrite Forall_lookup in H. apply (H i (Some v) Hi).
Qed.

Lemma element_dense (P : jsval → Prop) i slots :
  Present P slots → Forall is_Some slots → i < length slots → P (element i slots).
Proof.
  intros H Hd Hi. unfold element.
  destruct (lookup_lt_is_Some_2 slots i Hi) as [slot Hs]. rewrite Hs.
  rewrite Forall_lookup in Hd. destruct (Hd i slot Hs) as [v ->].
  unfold Present in H. rewrite Forall_lookup in H. apply (H i _ Hs).
Qed.

Lemma length_listed_4 (n : nat) :
  n ∈ [1; 2; 3; 4] ↔ n = 1 ∨ n = 2 ∨ n = 3 ∨ n = 4.
Proof.
  rewrite !elem_of_cons, elem_of_nil. tauto.
Qed.

Lemma length_listed_2 (n : nat) : n ∈ [1; 2] ↔ n = 1 ∨ n = 2.
Proof. rewrite !elem_of_cons, elem_of_nil. tauto. Qed.

Lemma dimensionValueb_false v : ¬ DimensionValue v → dimensionValueb v = false.
Proof.
  intros Hv. destruct (dimensionValueb v) eqn:H; [|done].
  by apply dimensionValueb_iff in H.
Qed.


(** X4. Whenever [handleShorthandInset] returns, the property map has
    exactly the four sides top, right, bottom, left, in this order. Each
    holds a Dimension Value or [undefined]; on a value without holes, each
    holds a Dimension Value: [undefined] reaches the result through a
    hole of the array only. *)
Theorem handleShorthandInset_shape `{Engine} (key : string) (v : jsval) (o : object) :
  handleShorthandInset key v = Normal o →
  o.*1 = ["top"; "right"; "bottom"; "left"] ∧
  Forall (λ x, DimensionValue x ∨ x = VUndefined) o.*2 ∧
  ((∀ slots, slotsOf v = Some slots → Forall is_Some slots) →
   Forall DimensionValue o.*2).
Proof.
  intros Ho. split; [by apply (inset_names key v) |]. revert Ho.
  rewrite inset_closed.
  destruct (dimensionValueb v) eqn:Hv.
  { apply dimensionValueb_iff in Hv. intros [= <-]. simpl. split.
    - repeat apply Forall_cons_2; try apply Forall_nil_2; by left.
    - intros _. by repeat apply Forall_cons_2. }
  destruct (slotsOf v) as [slots|] eqn:Hslots; [|done].
  destruct (presentb dimensionValueb slots) eqn:Hp; [|done].
  apply presentb_DimensionValue in Hp.
  pose proof (λ i, element_Present DimensionValue i slots Hp) as Hany.
  destruct (length slots) as [|[|[|[|[|n]]]]] eqn:Hlen; try done;
    intros [= <-]; simpl;
    (split; [repeat apply Forall_cons_2; try apply Forall_nil_2; apply Hany |]);
    intros Hdense; specialize (Hdense slots eq_refl);
    repeat apply Forall_cons_2; try apply Forall_nil_2;
    apply element_dense; try done; lia.
Qed.

Lemma prefix_refl s : String.prefix s s = true.
Proof.
  induction s as [|c s IH]; simpl; [done |]. by destruct (ascii_dec c c).
Qed.

Lemma prefix_append s t : String.prefix s (s +:+ t) = true.
Proof.
  induction s as [|c s IH]; [by destruct t |].
  rewrite append_cons. simpl. by destruct (ascii_dec c c).
Qed.

Lemma append_ne key (a b : string) : a ≠ b → key +:+ a ≠ key +:+ b.
Proof. intros Hne H. by apply (inj (String.app key)) in H. Qed.

(** X5. [handleShorthandSpacing] returns a property map exactly on a
    Dimension Value and on an array of length one to four whose elements,
    holes apart, are Dimension Values; on every other input it throws an
    [Error], never a [TypeError]. *)
Theorem handleShorthandSpacing_returns_iff (key : string) (v : jsval) :
  ((∃ o, handleShorthandSpacing key v = Normal o) ↔
     DimensionValue v ∨
     ∃ slots, slotsOf v = Some slots ∧ Present DimensionValue slots ∧
              length slots ∈ [1; 2; 3; 4]) ∧
  handleShorthandSpacing key v ≠ Throw TypeError.
Proof.
  rewrite spacing_closed.
  destruct (dimensionValueb v) eqn:Hv.
  { split; [|done]. split; [|by eexists].
    intros _. left. by apply dimensionValueb_iff. }
  assert (Hnd : ¬ DimensionValue v).
  { intros H0. apply dimensionValueb_iff in H0. congruence. }
  destruct (slotsOf v) as [slots|] eqn:Hslots.
  2:{ split; [|done].
      split; [by intros [o Ho] | intros [H0|(slots & H0 & _)]; done]. }
  destruct (presentb dimensionValueb slots) eqn:Hp.
  - apply presentb_DimensionValue in Hp. split.
    + split.
      * intros [o Ho]. right. exists slots. split; [done |]. split; [done |].
        apply length_listed_4.
        destruct (length slots) as [|[|[|[|[|n]]]]]; try discriminate; auto.
      * intros [H0|(slots' & [= <-] & _ & Hlen)]; [done |].
        apply length_listed_4 in Hlen as [->|[->|[->| ->]]]; by eexists.
    + by destruct (length slots) as [|[|[|[|[|n]]]]].
  - split; [|done]. split; [by intros [o Ho] |].
    intros [H0|(slots' & [= <-] & Hd & _)]; [done |].
    apply presentb_DimensionValue in Hd. congruence.
Qed.

(** The names [key +:+ a], [key +:+ b], ... are distinct when the suffixes
    are, by [Hne]. *)
Ltac distinct_names Hne :=
  repeat (apply NoDup_cons_2;
          [rewrite ?not_elem_of_cons;
           intuition (try (eapply Hne; [|eassumption]; discriminate);
                      try (by eapply not_elem_of_nil)) |]).

(** X6. Whenever [handleShorthandSpacing] returns, the property map has
    one to four properties, their names are distinct and all begin with
    the key, and each holds a Dimension Value or [undefined]; on a value
    without holes, each holds a Dimension Value. *)
Theorem handleShorthandSpacing_shape (key : string) (v : jsval) (o : object) :
  handleShorthandSpacing key v = Normal o →
  1 ≤ length o ≤ 4 ∧
  NoDup o.*1 ∧
  Forall (λ name, String.prefix key name = true) o.*1 ∧
  Forall (λ x, DimensionValue x ∨ x = VUndefined) o.*2 ∧
  ((∀ slots, slotsOf v = Some slots → Forall is_Some slots) →
   Forall DimensionValue o.*2).
Proof.
  assert (Hpre : ∀ suffix, String.prefix key (key +:+ suffix) = true)
    by apply prefix_append.
  assert (Hkey : String.prefix key key = true) by apply prefix_refl.
  assert (Hne : ∀ a b : string, a ≠ b → key +:+ a ≠ key +:+ b)
    by apply append_ne.
  rewrite spacing_closed.
  destruct (dimensionValueb v) eqn:Hv.
  { apply dimensionValueb_iff in Hv. intros [= <-]. simpl.
    split; [lia |]. split; [|split; [|split]].
    - distinct_names Hne. apply NoDup_nil_2.
    - by repeat apply Forall_cons_2.
    - repeat apply Forall_cons_2; try apply Forall_nil_2; by left.
    - intros _. by repeat apply Forall_cons_2. }
  destruct (slotsOf v) as [slots|] eqn:Hslots; [|done].
  destruct (presentb dimensionValueb slots) eqn:Hp; [|done].
  apply presentb_DimensionValue in Hp.
  pose proof (λ i, element_Present DimensionValue i slots Hp) as Hany.
  destruct (length slots) as [|[|[|[|[|n]]]]] eqn:Hlen; try done;
    intros [= <-]; simpl; (split; [lia |]);
    (split; [distinct_names Hne; apply NoDup_nil_2 |]);
    (split; [by repeat apply Forall_cons_2 |]);
    (split; [repeat apply Forall_cons_2; try apply Forall_nil_2; apply Hany |]);
    intros Hdense; specialize (Hdense slots eq_refl);
    repeat apply Forall_cons_2; try apply Forall_nil_2;
    apply element_dense; try done; lia.
Qed.

(** X7. [handleShorthandGap] returns a property map exactly on a number
    and on an array of length one or two whose elements, holes apart, are
    numbers, and then the map is the gap property alone, or the row gap
    followed by the column gap, holding numbers or [undefined] (numbers,
    on a value without holes); on every other input it throws an [Error],
    never a [TypeError]. *)
Theorem handleShorthandGap_returns_iff (key : string) (v : jsval) :
  ((∃ o, handleShorthandGap key v = Normal o) ↔
     Number v ∨
     ∃ slots, slotsOf v = Some slots ∧ Present Number slots ∧ length slots ∈ [1; 2]) ∧
  (∀ o, handleShorthandGap key v = Normal o →
     (o.*1 = ["gap"] ∨ o.*1 = ["rowGap"; "columnGap"]) ∧
     Forall (λ x, Number x ∨ x = VUndefined) o.*2 ∧
     ((∀ slots, slotsOf v = Some slots → Forall is_Some slots) →
      Forall Number o.*2)) ∧
  handleShorthandGap key v ≠ Throw TypeError.
Proof.
  rewrite gap_closed. unfold Number at 1.
  destruct (typeof v =? "number")%string eqn:Hv.
  { apply String.eqb_eq in Hv. split; [|split; [|done]].
    - split; [by left | by eexists].
    - intros o [= <-]. split; [by left |]. split.
      + apply Forall_cons_2; [by left | apply Forall_nil_2].
      + intros _. by apply Forall_cons_2. }
  apply String.eqb_neq in Hv.
  destruct (slotsOf v) as [slots|] eqn:Hslots.
  2:{ split; [|split; [done | done]].
      split; [by intros [o Ho] | intros [H0|(slots & H0 & _)]; done]. }
  destruct (presentb _ slots) eqn:Hp.
  - apply presentb_Number in Hp.
    pose proof (λ i, element_Present Number i slots Hp) as Hany.
    split; [|split].
    + split.
      * intros [o Ho]. right. exists slots. split; [done |]. split; [done |].
        apply length_listed_2.
        destruct (length slots) as [|[|[|n]]]; try discriminate; auto.
      * intros [H0|(slots' & [= <-] & _ & Hlen)]; [done |].
        apply length_listed_2 in Hlen as [->| ->]; by eexists.
    + intros o.
      destruct (length slots) as [|[|[|n]]] eqn:Hlen; try done;
        intros [= <-]; simpl; (split; [auto |]);
        (split; [repeat apply Forall_cons_2; try apply Forall_nil_2; apply Hany |]);
        intros Hdense; specialize (Hdense slots eq_refl);
        repeat apply Forall_cons_2; try apply Forall_nil_2;
        apply element_dense; try done; lia.
    + by destruct (length slots) as [|[|[|n]]].
  - split; [|split; [done | done]]. split; [by intros [o Ho] |].
    intros [H0|(slots' & [= <-] & Hd & _)]; [done |].
    apply presentb_Number in Hd. congruence.
Qed.

(** X8. On an input that is neither a Dimension Value nor an array whose
    elements, holes apart, are all Dimension Values, [handleShorthandInset]
    and [handleShorthandSpacing] throw the same error: it names the key and
    tells the [typeof] of the value ("object" for an array with a wrong
    element), never the element. *)
Theorem dimension_handlers_reject `{Engine} (key : string) (v : jsval) :
  ¬ DimensionValue v →
  (∀ slots, slotsOf v = Some slots → ¬ Present DimensionValue slots) →
  handleShorthandInset key v = Throw (Error (dimensionMessage key v)) ∧
  handleShorthandSpacing key v = Throw (Error (dimensionMessage key v)) ∧
  InvalidShorthandValue (Error (dimensionMessage key v)) key v ∧
  ∀ expected actual,
    ¬ InvalidShorthandLength (Error (dimensionMessage key v)) expected actual.
Proof.
  intros Hv Harr.
  rewrite inset_closed, spacing_closed, (dimensionValueb_false v Hv).
  assert (Hthrow : ∀ A (ok : list (option jsval) → completion A),
            match slotsOf v with
            | Some slots =>
                if presentb dimensionValueb slots then ok slots
                else Throw (Error (dimensionMessage key v))
            | None => Throw (Error (dimensionMessage key v))
            end = Throw (Error (dimensionMessage key v))).
  { intros A ok. destruct (slotsOf v) as [slots|] eqn:Hslots; [|done].
    destruct (presentb dimensionValueb slots) eqn:Hp; [|done].
    apply presentb_DimensionValue in Hp. by destruct (Harr slots eq_refl). }
  split; [|split; [|split]].
  - apply (Hthrow _ (λ slots, match length slots with
                              | 1 => _ | 2 => _ | 3 => _ | 4 => _ | _ => _
                              end)).
  - apply (Hthrow _ (λ slots, match length slots with
                              | 1 => _ | 2 => _ | 3 => _ | 4 => _ | _ => _
                              end)).
  - exists (dimensionMessage key v). split; [done |].
    split; [left | left]; unfold dimensionMessage; set_solver.
  - intros expected actual (msg & [= <-] & _ & Hlen).
    unfold carriesLength, dimensionMessage in Hlen.
    repeat (apply elem_of_cons in Hlen as [Hlen|Hlen]; [discriminate Hlen |]).
    by apply elem_of_nil in Hlen.
Qed.

(** X9. The inset shorthand agrees with its longer forms: a Dimension
    Value, alone or in an array of one, gives what four copies of it give;
    two values give what [a, b, a, b] gives; three values give what
    [a, b, c, b] gives. *)
Theorem handleShorthandInset_inheritance `{Engine} (key : string) (a b c : jsval) :
  DimensionValue a → DimensionValue b → DimensionValue c →
  handleShorthandInset key a = handleShorthandInset key (VArray [a; a; a; a]) ∧
  handleShorthandInset key (VArray [a]) =
    handleShorthandInset key (VArray [a; a; a; a]) ∧
  handleShorthandInset key (VArray [a; b]) =
    handleShorthandInset key (VArray [a; b; a; b]) ∧
  handleShorthandInset key (VArray [a; b; c]) =
    handleShorthandInset key (VArray [a; b; c; b]).
Proof.
  intros Ha Hb Hc.
  rewrite (inset_closed key a).
  rewrite (proj2 (dimensionValueb_iff a) Ha).
  by rewrite !inset_array by (by repeat apply Forall_cons_2).
Qed.

(** X10. The spacing shorthand on a Dimension Value gives what the array
    of two copies gives, the vertical and horizontal properties; the array
    of one copy gives something else, the bare key. *)
Theorem handleShorthandSpacing_scalar_pair (key : string) (v : jsval) :
  DimensionValue v →
  handleShorthandSpacing key v = handleShorthandSpacing key (VArray [v; v]) ∧
  handleShorthandSpacing key (VArray [v]) ≠ handleShorthandSpacing key v.
Proof.
  intros Hv. rewrite (spacing_closed key v).
  rewrite (proj2 (dimensionValueb_iff v) Hv).
  rewrite !spacing_array by (by repeat apply Forall_cons_2).
  split; [done |]. simpl. discriminate.
Qed.

(** ** Capitalising, splitting and trimming *)

Lemma toUpperChar_idemp c : toUpperChar (toUpperChar c) = toUpperChar c.
Proof. destruct c as [[] [] [] [] [] [] [] []]; reflexivity. Qed.

Lemma toUpperChar_isAscii c :
  isAscii (String c "") = true → isAscii (String (toUpperChar c) "") = true.
Proof. destruct c as [[] [] [] [] [] [] [] []]; intros Hc; done. Qed.

Lemma isWhiteSpace_isAscii c :
  isWhiteSpace c = true → isAscii (String c "") = true.
Proof. destruct c as [[] [] [] [] [] [] [] []]; intros Hc; done. Qed.

Lemma capitalize_nil `{Engine} : capitalize "" = "".
Proof. unfold capitalize. simpl. by rewrite toUpperCase_ascii. Qed.

Lemma capitalize_ascii `{Engine} c rest :
  isAscii (String c "") = true →
  capitalize (String c rest) = String (toUpperChar c) rest.
Proof.
  intros Hc. unfold capitalize. simpl. by rewrite (toUpperCase_char c Hc).
Qed.

Lemma capitalize_idemp `{Engine} str :
  isAscii (charAt0 str) = true → capitalize (capitalize str) = capitalize str.
Proof.
  destruct str as [|c rest]; intros Hc.
  - by rewrite !capitalize_nil.
  - rewrite (capitalize_ascii c rest Hc).
    rewrite (capitalize_ascii _ rest (toUpperChar_isAscii c Hc)).
    by rewrite toUpperChar_idemp.
Qed.

(** X11. On a string whose first character is ASCII, [capitalize] keeps
    the length and is idempotent: capitalising a capitalised string
    changes nothing. *)
Theorem capitalize_length_idemp `{Engine} (str : string) :
  isAscii (charAt0 str) = true →
  String.length (capitalize str) = String.length str ∧
  capitalize (capitalize str) = capitalize str.
Proof.
  intros Hc. split; [|by apply capitalize_idemp].
  destruct str as [|c rest]; [by rewrite capitalize_nil |].
  by rewrite (capitalize_ascii c rest Hc).
Qed.

(** X12. Under a parent key, a selector whose first character is ASCII
    and its capitalised form have the same scoped key, so they write the
    same bucket; without a parent key the scoped key is the selector
    itself. *)
Theorem scopedKey_capitalize `{Engine} (parentKey selector : string) :
  parentKey ≠ "" →
  isAscii (charAt0 selector) = true →
  scopedKey parentKey (capitalize selector) = scopedKey parentKey selector ∧
  scopedKey "" selector = selector.
Proof.
  intros Hp Hc. split; [|done].
  by rewrite !scopedKey_eq, !decide_False, capitalize_idemp by done.
Qed.

Lemma trimStart_id s :
  (∀ c u, s = String c u → isWhiteSpace c = false) → trimStart s = s.
Proof.
  destruct s as [|c s]; [done |]. intros H. simpl.
  by rewrite (H c s eq_refl).
Qed.

Lemma trimEnd_id s :
  (∀ u c, s = u +:+ String c "" → isWhiteSpace c = false) → trimEnd s = s.
Proof.
  induction s as [|c s IH]; [done |]. intros H. simpl.
  rewrite IH.
  - destruct s as [|d s]; [|done].
    by rewrite (H "" c eq_refl).
  - intros u d ->. apply (H (String c u) d). by rewrite append_cons.
Qed.

Lemma asciiTrim_idemp s : asciiTrim (asciiTrim s) = asciiTrim s.
Proof.
  destruct (asciiTrim_Trimmed s) as (l & r & _ & _ & _ & Hfirst & Hlast).
  unfold asciiTrim at 1. by rewrite (trimStart_id _ Hfirst), (trimEnd_id _ Hlast).
Qed.

Lemma asciiTrim_allWhite s : allWhite s = true → asciiTrim s = "".
Proof.
  unfold asciiTrim. induction s as [|c s IH]; [done |]. simpl.
  intros H. apply andb_true_iff in H as [Hc Hs]. rewrite Hc. by apply IH.
Qed.

Lemma allWhite_isAscii s : allWhite s = true → isAscii s = true.
Proof.
  induction s as [|c s IH]; [done |]. simpl. intros H.
  apply andb_true_iff in H as [Hc Hs].
  pose proof (isWhiteSpace_isAscii c Hc) as Hc'. simpl in Hc'.
  apply andb_true_iff in Hc' as [-> _]. by apply IH.
Qed.

Lemma trimStart_isAscii s : isAscii s = true → isAscii (trimStart s) = true.
Proof.
  induction s as [|c s IH]; [done |]. intros Hs. simpl.
  destruct (isWhiteSpace c); [|done].
  simpl in Hs. apply andb_true_iff in Hs as [_ Hs]. by apply IH.
Qed.

Lemma trimEnd_isAscii s : isAscii s = true → isAscii (trimEnd s) = true.
Proof.
  induction s as [|c s IH]; [done |]. intros Hs. simpl in *.
  apply andb_true_iff in Hs as [Hc Hs]. specialize (IH Hs).
  destruct (trimEnd s) as [|d t].
  - destruct (isWhiteSpace c); [done |]. simpl. by rewrite Hc.
  - simpl in *. by rewrite Hc, IH.
Qed.

Lemma trim_trim `{Engine} s : isAscii s = true → trim (trim s) = trim s.
Proof.
  intros Hs. rewrite (trim_ascii s Hs).
  rewrite trim_ascii by (by apply trimEnd_isAscii, trimStart_isAscii).
  apply asciiTrim_idemp.
Qed.

(** X14. On ASCII strings [trim] is idempotent, and it empties a string
    of white space only; so every selector of an ASCII key is its own
    trim. *)
Theorem trim_idemp `{Engine} (str key : string) :
  isAscii str = true →
  isAscii key = true →
  trim (trim str) = trim str ∧
  (allWhite str = true → trim str = "") ∧
  (∀ selector, selector ∈ selectors key → trim selector = selector).
Proof.
  intros Hstr Hkey. split; [by apply trim_trim |]. split.
  - intros Hw. rewrite (trim_ascii str Hstr). by apply asciiTrim_allWhite.
  - intros selector Hin. unfold selectors in Hin.
    apply list_elem_of_fmap_1 in Hin as (segment & -> & Hseg).
    apply trim_trim.
    pose proof (split_isAscii "," key Hkey) as Hsegs.
    rewrite Forall_forall in Hsegs. by apply Hsegs.
Qed.

Lemma split_length sep s : length (split sep s) = S (countChar sep s).
Proof.
  induction s as [|c s IH]; simpl; [done |].
  destruct (Ascii.eqb c sep); simpl; [by rewrite IH |].
  pose proof (split_nonempty sep s) as Hne.
  destruct (split sep s) as [|seg segs]; [done |]. exact IH.
Qed.

(** X13. A key has one selector more than it has commas: the list of
    selectors is never empty, and an empty key has the one selector "". *)
Theorem selectors_length `{Engine} (key : string) :
  length (selectors key) = S (countChar "," key) ∧ selectors "" = [""].
Proof.
  split.
  - unfold selectors. by rewrite length_fmap, split_length.
  - unfold selectors. csimpl. by rewrite trim_ascii.
Qed.

(** ** The shared-selector scoper, on every outcome *)

Lemma ownScope_Forall `{Engine} key parentKey value :
  ownScope key parentKey value →
  Forall (λ sel, inherited (scopedKey parentKey sel) = false) (selectors key).
Proof. intros [_ Hown]. by apply Forall_forall. Qed.

Lemma ownScope_app `{Engine} key parentKey value more :
  ownScope key parentKey value →
  "__proto__" ∉ more.*1 →
  ownScope key parentKey (value ++ more).
Proof.
  intros [Hnames Hown] Hmore. split; [|done].
  rewrite fmap_app, elem_of_app. by intros [?|?].
Qed.

Lemma handleSharedStyles_lookup `{Engine} key parentKey value props (map : styleMap) k :
  ownScope key parentKey value →
  declared value = Normal props →
  exec (handleSharedStyles key parentKey value) map !! k =
    if decide (k ∈ scopedKey parentKey <$> selectors key)
    then Some (objectAssign (bucketOf map k) props)
    else map !! k.
Proof.
  intros Hown Hd. unfold exec, handleSharedStyles.
  by destruct (forEach_selectors_declared parentKey value props (selectors key) map
                 Hd (proj1 Hown) (ownScope_Forall _ _ _ Hown)) as [_ ->].
Qed.

(** The loop over the properties ends as the expansion of the style
    object does. *)
Lemma assignProps_completion `{Engine} value (b : bucket) :
  (assignProps value b).1 = (λ _, tt) <$> declared value.
Proof.
  revert b. induction value as [|[prop v] value IH]; intros b; simpl; [done |].
  destruct (includes specialShorthandKeys prop).
  - destruct (shorthandHandlers prop) as [handler|]; [|done].
    destruct (handler prop v) as [src|e]; simpl; [|done].
    rewrite IH. by destruct (declared value).
  - rewrite IH. by destruct (declared value).
Qed.

Lemma declared_app `{Engine} value1 value2 :
  declared (value1 ++ value2) =
    props1 ← declared value1; props2 ← declared value2; Normal (props1 ++ props2).
Proof.
  induction value1 as [|[prop v] value1 IH]; simpl.
  - by destruct (declared value2).
  - destruct (includes specialShorthandKeys prop).
    + destruct (shorthandHandlers prop) as [handler|]; [|done].
      destruct (handler prop v) as [src|e]; simpl; [|done].
      rewrite IH. destruct (declared value1) as [p1|e]; simpl; [|done].
      destruct (declared value2) as [p2|e]; simpl; [|done].
      by rewrite (assoc_L (++)).
    + rewrite IH. destruct (declared value1) as [p1|e]; simpl; [|done].
      by destruct (declared value2) as [p2|e].
Qed.

Lemma assignProps_app `{Engine} value1 value2 props1 (b : bucket) :
  declared value1 = Normal props1 →
  assignProps (value1 ++ value2) b = assignProps value2 (objectAssign b props1).
Proof.
  revert props1 b. induction value1 as [|[prop v] value1 IH]; intros props1 b; simpl.
  - by intros [= <-].
  - destruct (includes specialShorthandKeys prop).
    + destruct (shorthandHandlers prop) as [handler|]; [|done].
      destruct (handler prop v) as [src|e]; simpl; [|done].
      destruct (declared value1) as [more|e]; simpl; [|done]. intros [= <-].
      by rewrite (IH more), objectAssign_app.
    + destruct (declared value1) as [more|e]; simpl; [|done]. intros [= <-].
      by rewrite (IH more).
Qed.

(** When the expansion of the style object throws, a handler of the table
    threw that error on a property of the object. *)
Lemma declared_throws `{Engine} value e :
  declared value = Throw e →
  ∃ prop v handler,
    (prop, v) ∈ value ∧ shorthandHandlers prop = Some handler ∧
    handler prop v = Throw e.
Proof.
  induction value as [|[prop v] value IH]; simpl; [done |].
  destruct (includes specialShorthandKeys prop) eqn:Hs.
  - destruct (shorthandHandlers_special prop Hs) as [handler Hh]. rewrite Hh.
    destruct (handler prop v) as [src|e'] eqn:Hv; simpl.
    + destruct (declared value) as [more|e']; simpl; [done |]. intros [= <-].
      destruct (IH eq_refl) as (prop' & v' & handler' & Hin & Hh' & Hv').
      exists prop', v', handler'. split; [by apply list_elem_of_further | done].
    + intros [= <-]. exists prop, v, handler.
      split; [apply list_elem_of_here | done].
  - destruct (declared value) as [more|e']; simpl; [done |]. intros [= <-].
    destruct (IH eq_refl) as (prop' & v' & handler' & Hin & Hh' & Hv').
    exists prop', v', handler'. split; [by apply list_elem_of_further | done].
Qed.

Lemma selectors_cons `{Engine} key : ∃ selector rest, selectors key = selector :: rest.
Proof.
  unfold selectors. pose proof (split_nonempty "," key) as Hne.
  destruct (split "," key) as [|segment segments]; [done |]. by eexists _, _.
Qed.

Lemma handleSharedStyles_outcome `{Engine} key parentKey value (map : styleMap) :
  ownScope key parentKey value →
  (handleSharedStyles key parentKey value map).1 =
    ofCompletion ((λ _, tt) <$> declared value).
Proof.
  intros Hown. pose proof (ownScope_Forall _ _ _ Hown) as Hsels.
  unfold handleSharedStyles. destruct (declared value) as [props|e] eqn:Hd.
  - by destruct (forEach_selectors_declared parentKey value props
                   (selectors key) map Hd (proj1 Hown) Hsels) as [-> _].
  - destruct (selectors_cons key) as (selector & rest & Hsel).
    rewrite Hsel in *. apply Forall_cons in Hsels as [Hfirst _].
    rewrite forEach_cons, (handleSelector_run _ _ _ _ Hfirst (proj1 Hown)).
    pose proof (assignProps_completion value
                  (bucketOf map (scopedKey parentKey selector))) as Hc.
    rewrite Hd in Hc.
    destruct (assignProps value _) as [c b]. simpl in Hc. by subst c.
Qed.

(** X15. When its writes stay in the buckets of the mapping,
    [handleSharedStyles] ends as the expansion of the shorthands of the
    style object does, whatever the key, the parent key and the mapping:
    it returns when every shorthand expands, and otherwise throws the
    error of the first shorthand that fails. What it throws, a handler of
    the table threw: every bucket it writes exists, every handler it calls
    is defined. *)
Theorem handleSharedStyles_completion `{Engine}
    (key parentKey : string) (value : object) (map : styleMap) :
  ownScope key parentKey value →
  (handleSharedStyles key parentKey value map).1 =
    ofCompletion ((λ _, tt) <$> declared value) ∧
  ∀ e, (handleSharedStyles key parentKey value map).1 = Throws e →
       ∃ prop v handler,
         (prop, v) ∈ value ∧ shorthandHandlers prop = Some handler ∧
         handler prop v = Throw e.
Proof.
  intros Hown. rewrite (handleSharedStyles_outcome _ _ _ _ Hown).
  split; [done |]. intros e He. apply declared_throws.
  destruct (declared value) as [props|e']; simpl in He; [done |].
  by injection He as ->.
Qed.

(** X16. When a shorthand fails, [handleSharedStyles] stops inside the
    first selector: its bucket exists afterwards and holds what it held
    with the properties declared before the failing shorthand assigned;
    the properties after it are not written, and no other selector is
    created or changed. *)
Theorem handleSharedStyles_throws `{Engine}
    (key parentKey : string) (before after : object) (prop : string) (v : jsval)
    (props : object) (e : error) (map : styleMap) (selector : string)
    (rest : list string) :
  ownScope key parentKey (before ++ (prop, v) :: after) →
  declared before = Normal props →
  declared [(prop, v)] = Throw e →
  selectors key = selector :: rest →
  handleSharedStyles key parentKey (before ++ (prop, v) :: after) map =
    (Throws e,
     <[scopedKey parentKey selector :=
         objectAssign (bucketOf map (scopedKey parentKey selector)) props]> map).
Proof.
  intros Hown Hb Hp Hsel. pose proof (ownScope_Forall _ _ _ Hown) as Hsels.
  unfold handleSharedStyles. rewrite Hsel in *.
  apply Forall_cons in Hsels as [Hfirst _].
  rewrite forEach_cons, (handleSelector_run _ _ _ _ Hfirst (proj1 Hown)).
  rewrite (assignProps_app before _ props _ Hb).
  simpl in *.
  destruct (includes specialShorthandKeys prop); [|done].
  destruct (shorthandHandlers prop) as [handler|]; [|by injection Hp as <-].
  destruct (handler prop v) as [src|e']; [done |].
  simpl in Hp. by injection Hp as ->.
Qed.

Lemma ensureBucket_ensured `{Engine} k (s : styleMap) k' :
  (ensureBucket k s).2 !! k' = if decide (k' = k) then ensured s k else s !! k'.
Proof.
  unfold ensureBucket, ensured, bucketOf.
  destruct (decide (k' = k)) as [->|Hne].
  - destruct (s !! k) as [b|] eqn:Hb; simpl.
    + rewrite Hb. by destruct (inherited k).
    + destruct (inherited k); simpl; [done |]. by rewrite lookup_insert_eq.
  - destruct (s !! k) as [b|]; [done |].
    destruct (inherited k); simpl; [done |]. by rewrite lookup_insert_ne.
Qed.

Lemma ensured_lookup `{Engine} (s s' : styleMap) k :
  s' !! k = ensured s k → ensured s' k = ensured s k.
Proof.
  unfold ensured, bucketOf. intros ->.
  destruct (inherited k); [done |]. by destruct (s !! k).
Qed.

Lemma forEach_selectors_empty `{Engine} parentKey sels (s : styleMap) :
  (forEach (handleSelector parentKey []) sels s).1 = Returns tt ∧
  ∀ k, (forEach (handleSelector parentKey []) sels s).2 !! k =
       if decide (k ∈ scopedKey parentKey <$> sels) then ensured s k else s !! k.
Proof.
  revert s. induction sels as [|sel sels IH]; intros s.
  - split; [done |]. intros k. rewrite fmap_nil.
    by rewrite decide_False by apply not_elem_of_nil.
  - rewrite forEach_cons.
    assert (Hstep : handleSelector parentKey [] sel s =
                    (Returns tt, (ensureBucket (scopedKey parentKey sel) s).2)).
    { unfold handleSelector, mbind, M_bind, ensureBucket.
      destruct (s !! scopedKey parentKey sel); [done |].
      by destruct (inherited (scopedKey parentKey sel)). }
    rewrite Hstep.
    destruct (IH ((ensureBucket (scopedKey parentKey sel) s).2)) as [IH1 IH2].
    split; [exact IH1 |]. intros k. rewrite IH2, fmap_cons.
    pose proof (ensureBucket_ensured (scopedKey parentKey sel) s k) as Hk.
    destruct (decide (k = scopedKey parentKey sel)) as [->|Hne].
    + rewrite (decide_True (P := _ ∈ _ :: _)) by (apply elem_of_cons; by left).
      rewrite Hk. rewrite (ensured_lookup _ _ _ Hk).
      by destruct (decide (_ ∈ _)).
    + rewrite Hk.
      destruct (decide (k ∈ scopedKey parentKey <$> sels)) as [Hin|Hin].
      * rewrite decide_True by (apply elem_of_cons; by right).
        unfold ensured, bucketOf. by rewrite Hk.
      * rewrite decide_False; [done |]. rewrite not_elem_of_cons. by split.
Qed.

(** X17. With an empty style object [handleSharedStyles] returns, and does
    to every scoped key what [if (!map[k]) map[k] = {}] does: a bucket that
    exists is kept; one that does not is created, empty, unless the name is
    one the mapping inherits. The other selectors are as before. *)
Theorem handleSharedStyles_empty_value `{Engine}
    (key parentKey : string) (map : styleMap) (k : string) :
  (handleSharedStyles key parentKey [] map).1 = Returns tt ∧
  exec (handleSharedStyles key parentKey []) map !! k =
    if decide (k ∈ scopedKey parentKey <$> selectors key)
    then (if inherited k then map !! k else Some (bucketOf map k))
    else map !! k.
Proof.
  destruct (forEach_selectors_empty parentKey (selectors key) map) as [H1 H2].
  split; [exact H1 |]. unfold exec, handleSharedStyles. by rewrite H2.
Qed.

Lemma bucketOf_handleSharedStyles `{Engine} key parentKey value props (map : styleMap) k :
  ownScope key parentKey value →
  declared value = Normal props →
  k ∈ scopedKey parentKey <$> selectors key →
  bucketOf (exec (handleSharedStyles key parentKey value) map) k =
    objectAssign (bucketOf map k) props.
Proof.
  intros Hown Hd Hk. unfold bucketOf at 1.
  by rewrite (handleSharedStyles_lookup _ _ _ props _ _ Hown Hd), decide_True.
Qed.

(** X18. When it returns and its writes stay in the buckets of the
    mapping, [handleSharedStyles] is idempotent: a second call with the
    same arguments leaves the mapping as the first call left it. *)
Theorem handleSharedStyles_idemp `{Engine}
    (key parentKey : string) (value props : object) (map : styleMap) :
  ownScope key parentKey value →
  declared value = Normal props →
  exec (handleSharedStyles key parentKey value)
       (exec (handleSharedStyles key parentKey value) map) =
    exec (handleSharedStyles key parentKey value) map.
Proof.
  intros Hown Hd. apply map_eq. intros k.
  rewrite !(handleSharedStyles_lookup _ _ _ props _ _ Hown Hd).
  destruct (decide (k ∈ scopedKey parentKey <$> selectors key)) as [Hk|Hk]; [|done].
  by rewrite (bucketOf_handleSharedStyles _ _ _ props _ _ Hown Hd Hk),
       objectAssign_idemp.
Qed.

(** X19. When it returns and its writes stay in the buckets of the
    mapping, what [handleSharedStyles] leaves depends on the set of scoped
    keys only: the order of the selectors in the key and their repetitions
    do not matter. *)
Theorem handleSharedStyles_selector_set `{Engine}
    (key1 key2 parentKey : string) (value props : object) (map : styleMap) :
  ownScope key1 parentKey value →
  ownScope key2 parentKey value →
  declared value = Normal props →
  (∀ k, k ∈ scopedKey parentKey <$> selectors key1 ↔
        k ∈ scopedKey parentKey <$> selectors key2) →
  exec (handleSharedStyles key1 parentKey value) map =
    exec (handleSharedStyles key2 parentKey value) map.
Proof.
  intros Hown1 Hown2 Hd Hset. apply map_eq. intros k.
  rewrite (handleSharedStyles_lookup _ _ _ props _ _ Hown1 Hd).
  rewrite (handleSharedStyles_lookup _ _ _ props _ _ Hown2 Hd).
  destruct (decide (k ∈ scopedKey parentKey <$> selectors key1)) as [H1|H1].
  - by rewrite decide_True by by apply Hset.
  - rewrite decide_False; [done |]. intros H2. by apply H1, Hset.
Qed.

(** X20. A later declaration overrides an earlier one: a plain property
    declared last keeps its value in every scoped bucket, whatever a
    shorthand before it wrote; and an inset declared last sets the four
    sides, whatever was declared for them before. *)
Theorem handleSharedStyles_last_wins `{Engine}
    (key parentKey : string) (value props : object) (prop : string) (v : jsval)
    (map : styleMap) (selector : string) :
  ownScope key parentKey value →
  declared value = Normal props →
  selector ∈ selectors key →
  (includes specialShorthandKeys prop = false → prop ≠ "__proto__" →
   ∃ b, exec (handleSharedStyles key parentKey (value ++ [(prop, v)])) map
          !! scopedKey parentKey selector = Some b ∧
        b !! prop = Some v) ∧
  (DimensionValue v →
   ∃ b, exec (handleSharedStyles key parentKey (value ++ [("inset", v)])) map
          !! scopedKey parentKey selector = Some b ∧
        b !! "top" = Some v ∧ b !! "right" = Some v ∧
        b !! "bottom" = Some v ∧ b !! "left" = Some v).
Proof.
  intros Hown Hd Hsel.
  assert (Hk : scopedKey parentKey selector ∈ scopedKey parentKey <$> selectors key)
    by by apply list_elem_of_fmap_2.
  split.
  - intros Hplain Hprop.
    assert (Hown' : ownScope key parentKey (value ++ [(prop, v)])).
    { apply ownScope_app; [done |]. simpl. rewrite not_elem_of_cons.
      split; [done | apply not_elem_of_nil]. }
    assert (Hd' : declared (value ++ [(prop, v)]) = Normal (props ++ [(prop, v)])).
    { rewrite declared_app, Hd. simpl. by rewrite Hplain. }
    rewrite (handleSharedStyles_lookup _ _ _ _ _ _ Hown' Hd'), decide_True by done.
    eexists. split; [done |]. apply objectAssign_lookup_last.
  - intros Hv.
    assert (Hown' : ownScope key parentKey (value ++ [("inset", v)])).
    { apply ownScope_app; [done |]. simpl. not_listed. }
    assert (Hd' : declared (value ++ [("inset", v)]) =
                  Normal (props ++ [("top", v); ("right", v); ("bottom", v); ("left", v)])).
    { rewrite declared_app, Hd. simpl.
      change (shorthandHandlers "inset") with (Some handleShorthandInset).
      change (includes specialShorthandKeys "inset") with true. simpl.
      rewrite inset_closed, (proj2 (dimensionValueb_iff v) Hv). done. }
    rewrite (handleSharedStyles_lookup _ _ _ _ _ _ Hown' Hd'), decide_True by done.
    eexists. split; [done |]. rewrite objectAssign_app. simpl.
    split; [|split; [|split]]; by simplify_map_eq.
Qed.

Lemma declared_plain `{Engine} value :
  Forall (λ p, includes specialShorthandKeys p.1 = false) value →
  declared value = Normal value.
Proof.
  induction 1 as [|[prop v] value Hp _ IH]; [done |]. simpl in *.
  by rewrite Hp, IH.
Qed.

Lemma objectAssign_lookup_NoDup (b : bucket) (src : object) p v :
  NoDup src.*1 → (p, v) ∈ src → objectAssign b src !! p = Some v.
Proof.
  intros Hnd Hin. rewrite objectAssign_union. apply lookup_union_Some_l.
  apply elem_of_list_to_map_1.
  - by rewrite fmap_reverse, reverse_Permutation.
  - by apply elem_of_reverse.
Qed.

Lemma objectAssign_lookup_other (b : bucket) (src : object) p :
  p ∉ src.*1 → objectAssign b src !! p = b !! p.
Proof.
  intros Hp. rewrite objectAssign_union, lookup_union_r; [done |].
  apply not_elem_of_list_to_map_1. by rewrite fmap_reverse, elem_of_reverse.
Qed.

(** X21. When its writes stay in the buckets of the mapping, a style
    object with no shorthand property never makes [handleSharedStyles]
    throw; with distinct property names, every scoped bucket then holds
    each property of the object with its value, and keeps the other
    properties it had. *)
Theorem handleSharedStyles_plain `{Engine}
    (key parentKey : string) (value : object) (map : styleMap) (selector : string) :
  ownScope key parentKey value →
  Forall (λ p, includes specialShorthandKeys p.1 = false) value →
  NoDup value.*1 →
  selector ∈ selectors key →
  (handleSharedStyles key parentKey value map).1 = Returns tt ∧
  ∃ b, exec (handleSharedStyles key parentKey value) map
         !! scopedKey parentKey selector = Some b ∧
       (∀ prop v, (prop, v) ∈ value → b !! prop = Some v) ∧
       (∀ prop, prop ∉ value.*1 →
          b !! prop = bucketOf map (scopedKey parentKey selector) !! prop).
Proof.
  intros Hown Hplain Hnd Hsel. apply declared_plain in Hplain as Hd.
  split.
  - by rewrite (handleSharedStyles_outcome _ _ _ _ Hown), Hd.
  - rewrite (handleSharedStyles_lookup _ _ _ _ _ _ Hown Hd).
    rewrite decide_True by by apply list_elem_of_fmap_2.
    eexists. split; [done |]. split.
    + intros prop v Hin. by apply objectAssign_lookup_NoDup.
    + intros prop Hp. by apply objectAssign_lookup_other.
Qed.

(** X22. When it returns and its writes stay in the buckets of the
    mapping, [handleSharedStyles] leaves exactly the selectors the mapping
    had and the scoped keys: every scoped key has a bucket, and no
    selector is removed. *)
Theorem handleSharedStyles_dom `{Engine}
    (key parentKey : string) (value props : object) (map : styleMap) :
  ownScope key parentKey value →
  declared value = Normal props →
  dom (exec (handleSharedStyles key parentKey value) map) =
    dom map ∪ list_to_set (scopedKey parentKey <$> selectors key).
Proof.
  intros Hown Hd. apply set_eq. intros k.
  rewrite elem_of_dom, (handleSharedStyles_lookup _ _ _ _ _ _ Hown Hd).
  rewrite elem_of_union, elem_of_dom, elem_of_list_to_set.
  destruct (decide (k ∈ scopedKey parentKey <$> selectors key)) as [Hk|Hk].
  - split; [by right | by eexists].
  - split; [by left | by intros [H0|H0]].
Qed.

Lemma scopedKey_empty `{Engine} parentKey : scopedKey parentKey "" = parentKey.
Proof.
  rewrite scopedKey_eq. destruct (decide (parentKey = "")) as [->|_]; [done |].
  unfold capitalize. simpl. rewrite toUpperCase_ascii by done. simpl.
  apply append_nil_r.
Qed.

(** X23. A segment of the key that [trim] empties (an empty key, a
    doubled or trailing comma, a segment of white space) has the parent
    key itself as its scoped key: the declared properties are written to
    the bucket of the parent key, the bucket named "" when there is no
    parent key. *)
Theorem handleSharedStyles_empty_segment `{Engine}
    (key parentKey segment : string) (value props : object) (map : styleMap) :
  ownScope key parentKey value →
  segment ∈ split "," key →
  trim segment = "" →
  declared value = Normal props →
  exec (handleSharedStyles key parentKey value) map !! parentKey =
    Some (objectAssign (bucketOf map parentKey) props).
Proof.
  intros Hown Hseg Hempty Hd.
  rewrite (handleSharedStyles_lookup _ _ _ _ _ _ Hown Hd), decide_True; [done |].
  rewrite <- (scopedKey_empty parentKey) at 1.
  apply list_elem_of_fmap_2. unfold selectors.
  rewrite <- Hempty. by apply list_elem_of_fmap_2.
Qed.

(** ** Plain assignment *)

Lemma assignFlatStyle_run `{Engine} (s : styleMap) parentKey key value :
  inherited parentKey = false →
  key ≠ "__proto__" →
  assignFlatStyle parentKey key value s =
    (Returns tt, <[parentKey := <[key := value]> (bucketOf s parentKey)]> s).
Proof.
  intros Hi Hkey.
  unfold assignFlatStyle, mbind, M_bind, ensureBucket, setProp, bucketOf.
  destruct (s !! parentKey) as [b|] eqn:Hb; simpl.
  - rewrite Hb. by destruct (String.eqb_spec key "__proto__").
  - rewrite Hi. simpl. rewrite lookup_insert_eq, insert_insert_eq.
    by destruct (String.eqb_spec key "__proto__").
Qed.

(** X24. When the parent key names no property the mapping inherits and
    the key is not [__proto__], [assignFlatStyle] returns; afterwards the
    bucket of the parent key exists and holds the value under the key; its
    other properties, and the buckets of the other selectors, are as
    before. *)
Theorem assignFlatStyle_lookup `{Engine}
    (nativeStyles : styleMap) (parentKey key : string) (value : jsval) :
  inherited parentKey = false →
  key ≠ "__proto__" →
  (assignFlatStyle parentKey key value nativeStyles).1 = Returns tt ∧
  ∃ b, exec (assignFlatStyle parentKey key value) nativeStyles !! parentKey = Some b ∧
       b !! key = Some value ∧
       (∀ other, other ≠ key → b !! other = bucketOf nativeStyles parentKey !! other) ∧
       (∀ selector, selector ≠ parentKey →
          exec (assignFlatStyle parentKey key value) nativeStyles !! selector =
            nativeStyles !! selector).
Proof.
  intros Hi Hkey. unfold exec. rewrite (assignFlatStyle_run _ _ _ _ Hi Hkey). simpl.
  split; [done |]. eexists. split; [apply lookup_insert_eq |].
  split; [apply lookup_insert_eq |]. split.
  - intros other Hne. by rewrite lookup_insert_ne.
  - intros selector Hne. by rewrite lookup_insert_ne.
Qed.

Lemma bucketOf_insert (s : styleMap) k (b : bucket) k' :
  bucketOf (<[k := b]> s) k' = if decide (k = k') then b else bucketOf s k'.
Proof.
  unfold bucketOf. rewrite lookup_insert. by destruct (decide (k = k')).
Qed.

(** X25. Away from the inherited names and [__proto__], two plain
    assignments to different properties commute, and two assignments to
    the same property of the same selector leave what the second alone
    leaves. *)
Theorem assignFlatStyle_compose `{Engine}
    (nativeStyles : styleMap) (parentKey1 key1 parentKey2 key2 : string)
    (value1 value2 : jsval) :
  inherited parentKey1 = false → inherited parentKey2 = false →
  key1 ≠ "__proto__" → key2 ≠ "__proto__" →
  (parentKey1, key1) ≠ (parentKey2, key2) →
  exec (assignFlatStyle parentKey2 key2 value2)
       (exec (assignFlatStyle parentKey1 key1 value1) nativeStyles) =
    exec (assignFlatStyle parentKey1 key1 value1)
         (exec (assignFlatStyle parentKey2 key2 value2) nativeStyles) ∧
  exec (assignFlatStyle parentKey1 key1 value2)
       (exec (assignFlatStyle parentKey1 key1 value1) nativeStyles) =
    exec (assignFlatStyle parentKey1 key1 value2) nativeStyles.
Proof.
  intros Hi1 Hi2 Hk1 Hk2 Hne. unfold exec.
  repeat first [ rewrite (assignFlatStyle_run _ parentKey1 key1) by done
               | rewrite (assignFlatStyle_run _ parentKey2 key2) by done ].
  simpl. rewrite !bucketOf_insert. split.
  - destruct (decide (parentKey1 = parentKey2)) as [<-|Hp].
    + rewrite decide_True by done. rewrite !insert_insert_eq.
      f_equal. apply insert_insert_ne. congruence.
    + rewrite !decide_False by done. by apply insert_insert_ne.
  - rewrite decide_True by done. by rewrite !insert_insert_eq.
Qed.

(** ** The merge step, further *)

(** X26. Merging an empty shared map changes nothing; and merging a shared
    map, no selector of which is inherited, into an empty mapping gives
    the shared map itself. *)
Theorem applySharedStyles_empty `{Engine}
    (nativeStyles : styleMap) (sharedStylesMap : list (string * object)) :
  ownEntries sharedStylesMap →
  applySharedStyles [] nativeStyles = (Returns tt, nativeStyles) ∧
  exec (applySharedStyles sharedStylesMap) ∅ = asMap sharedStylesMap.
Proof.
  intros Hown. split; [done |]. apply map_eq. intros k.
  rewrite applySharedStyles_lookup by done.
  unfold bucketOf. rewrite lookup_empty. simpl.
  destruct (asMap sharedStylesMap !! k) as [props|]; [|done].
  by rewrite (right_id_L ∅ (∪)).
Qed.

(** X27. Away from the inherited names, [applySharedStyles] removes
    nothing: the selectors afterwards are those of the two mappings, and
    a bucket of the native styles keeps every property it had, with its
    value unless the shared map gives the selector that property. *)
Theorem applySharedStyles_keeps `{Engine}
    (nativeStyles : styleMap) (sharedStylesMap : list (string * object))
    (selector : string) (b : bucket) :
  ownEntries sharedStylesMap →
  nativeStyles !! selector = Some b →
  dom (exec (applySharedStyles sharedStylesMap) nativeStyles) =
    dom (asMap sharedStylesMap) ∪ dom nativeStyles ∧
  ∃ b', exec (applySharedStyles sharedStylesMap) nativeStyles !! selector = Some b' ∧
        dom b ⊆ dom b' ∧
        ∀ prop, bucketOf (asMap sharedStylesMap) selector !! prop = None →
                b' !! prop = b !! prop.
Proof.
  intros Hown Hb. split.
  - apply set_eq. intros k.
    rewrite elem_of_dom, applySharedStyles_lookup, elem_of_union, !elem_of_dom by done.
    destruct (asMap sharedStylesMap !! k) as [props|].
    + split; [left; by eexists | by eexists].
    + split; [by right | by intros [[? H0]|H0]].
  - rewrite applySharedStyles_lookup by done. unfold bucketOf. rewrite Hb. simpl.
    destruct (asMap sharedStylesMap !! selector) as [props|]; simpl.
    + eexists. split; [done |]. split.
      * rewrite dom_union_L. set_solver.
      * intros prop Hp. by rewrite lookup_union_r.
    + eexists. split; [done |]. split; [done | done].
Qed.

(** X28. Collecting the shared styles in an empty map and merging that
    map, however it is enumerated, into the native styles leaves what
    [handleSharedStyles] leaves when it writes the native styles
    directly. *)
Theorem applySharedStyles_handleSharedStyles `{Engine}
    (key parentKey : string) (value props : object) (nativeStyles : styleMap)
    (collected : list (string * object)) :
  ownScope key parentKey value →
  declared value = Normal props →
  ownEntries collected →
  asMap collected = exec (handleSharedStyles key parentKey value) ∅ →
  exec (applySharedStyles collected) nativeStyles =
    exec (handleSharedStyles key parentKey value) nativeStyles.
Proof.
  intros Hown Hd Hentries Hcollected. apply map_eq. intros k.
  rewrite applySharedStyles_lookup, Hcollected by done.
  rewrite !(handleSharedStyles_lookup _ _ _ _ _ _ Hown Hd).
  destruct (decide (k ∈ scopedKey parentKey <$> selectors key)) as [Hk|Hk].
  - f_equal. rewrite !objectAssign_union. unfold bucketOf at 1.
    rewrite lookup_empty. simpl. by rewrite (right_id_L ∅ (∪)).
  - by rewrite lookup_empty.
Qed.

(** ** What the classifier rejects *)

Lemma forallChars_append test s t :
  forallChars test (s +:+ t) = forallChars test s && forallChars test t.
Proof.
  induction s as [|c s IH]; [done |].
  rewrite append_cons. simpl. by rewrite IH, andb_assoc.
Qed.

Lemma allDigits_dimensionChars s :
  allDigits s = true → forallChars dimensionChar s = true.
Proof.
  induction s as [|c s IH]; [done |]. simpl. intros H.
  apply andb_true_iff in H as [Hc Hs]. unfold dimensionChar at 1.
  rewrite Hc. simpl. by apply IH.
Qed.

(** X29. A string that [isDimensionValue] accepts, other than "auto",
    begins with a digit and is made of digits, decimal points and
    percent signs only: a sign, white space, an exponent or a unit makes
    the string an invalid value. *)
Theorem isDimensionValue_string (s : string) :
  isDimensionValue (VString s) = Normal true →
  s ≠ "auto" →
  (∃ c rest, s = String c rest ∧ isDigit c = true) ∧
  forallChars dimensionChar s = true.
Proof.
  intros H Hauto. apply isDimensionValue_true in H.
  destruct H as [[n H]|[H|[(s' & [= <-] & Hs)|[H|(props & f & H & _)]]]];
    try discriminate; [by injection H |].
  destruct Hs as (whole & fraction & percent & -> & [Hne Hw] & Hf & Hp).
  split.
  - destruct whole as [|c w]; [done |]. simpl in Hw.
    apply andb_true_iff in Hw as [Hc _]. exists c. eexists.
    by rewrite append_cons.
  - rewrite !forallChars_append, (allDigits_dimensionChars whole Hw). simpl.
    apply andb_true_iff. split.
    + destruct Hf as [->|(ds & -> & _ & Hds)]; [done |].
      rewrite forallChars_append. by rewrite (allDigits_dimensionChars ds Hds).
    + by destruct Hp as [->| ->].
Qed.

(** * Examples

    The theorems above hold on every engine. The examples are run on the
    plain engine: mappings that are plain objects, ASCII strings, values
    that [JSON.stringify] accepts. *)

#[global] Existing Instance plainEngine.

(** The writes of a call on closed arguments stay in the buckets of the
    mapping. *)
Ltac own_scope :=
  split;
  [ simpl; not_listed
  | let selector := fresh "selector" in
    let Hin := fresh "Hin" in
    intros selector Hin; vm_compute in Hin;
    repeat (apply elem_of_cons in Hin as [->|Hin]; [reflexivity |]);
    by apply elem_of_nil in Hin ].

Ltac own_entries :=
  split;
  [ simpl; repeat (apply NoDup_cons_2; [not_listed |]); apply NoDup_nil_2
  | repeat (apply Forall_cons_2; [split; [reflexivity | simpl; not_listed] |]);
    apply Forall_nil_2 ].

(** ** The expanders *)

Lemma handleShorthandInset_expands_witness :
  handleShorthandInset "inset" (VString "50%") =
    Normal [("top", VString "50%"); ("right", VString "50%");
            ("bottom", VString "50%"); ("left", VString "50%")] ∧
  handleShorthandInset "inset" (VArray [VNumber 5; VString "auto"; VNull]) =
    Normal [("top", VNumber 5); ("right", VString "auto");
            ("bottom", VNull); ("left", VString "auto")].
Proof.
  destruct (handleShorthandInset_expands "inset") as (H0 & _ & _ & H3 & _).
  split.
  - apply H0. dimension.
  - apply H3. dimensions.
Defined.

Lemma handleShorthandSpacing_expands_witness :
  handleShorthandSpacing "margin" (VNumber 8) =
    Normal [("marginVertical", VNumber 8); ("marginHorizontal", VNumber 8)] ∧
  handleShorthandSpacing "padding" (VArray [VNumber 10]) =
    Normal [("padding", VNumber 10)] ∧
  handleShorthandSpacing "padding" (VArray [VNumber 10; VNumber 20]) =
    Normal [("paddingVertical", VNumber 10); ("paddingHorizontal", VNumber 20)] ∧
  handleShorthandSpacing "margin" (VArray [VNumber 1; VString "auto"; VNull]) =
    Normal [("marginTop", VNumber 1); ("marginHorizontal", VString "auto");
            ("marginBottom", VNull)] ∧
  handleShorthandSpacing "margin"
      (VArray [VNumber 1; VNumber 2; VNumber 3; VString "4%"]) =
    Normal [("marginTop", VNumber 1); ("marginRight", VNumber 2);
            ("marginBottom", VNumber 3); ("marginLeft", VString "4%")].
Proof.
  destruct (handleShorthandSpacing_expands "margin") as (M0 & _ & _ & M3 & M4).
  destruct (handleShorthandSpacing_expands "padding") as (_ & P1 & P2 & _).
  split; [|split; [|split; [|split]]].
  - apply M0. dimension.
  - apply P1. dimensions.
  - apply P2. dimensions.
  - apply M3. dimensions.
  - apply M4. dimensions.
Defined.

Lemma handleShorthandSpacing_length_witness :
  ∃ e, handleShorthandSpacing "margin"
         (VArray [VNumber 1; VNumber 2; VNumber 3; VNumber 4; VNumber 5]) = Throw e ∧
       InvalidShorthandLength e [1; 2; 3; 4] 5 ∧
       carriesKey e "margin" ∧
       ∀ o, handleShorthandSpacing "margin"
              (VArray [VNumber 1; VNumber 2; VNumber 3; VNumber 4; VNumber 5]) ≠ Normal o.
Proof.
  apply (handleShorthandSpacing_length "margin"
           [VNumber 1; VNumber 2; VNumber 3; VNumber 4; VNumber 5]).
  - dimensions.
  - simpl. not_listed.
Defined.

Lemma handleShorthandInset_length_witness :
  (∀ o, handleShorthandInset "inset" (VArray []) ≠ Normal o) ∧
  ∃ e, handleShorthandInset "inset" (VArray []) = Throw e ∧
       e = Error [Lit "Invalid value for inset: "; OfJson (VArray [])] ∧
       InvalidShorthandValue e "inset" (VArray []) ∧
       ∀ expected actual, ¬ InvalidShorthandLength e expected actual.
Proof.
  destruct (handleShorthandInset_length "inset" []) as (Hno & _ & Herr).
  - dimensions.
  - simpl. not_listed.
  - split; [exact Hno |]. apply Herr. reflexivity.
Defined.

(** C6, as the claim states it, fails: the five Dimension Values
    1, 2, 3, 4, 5 under the key "inset" throw an error that is no
    InvalidShorthandLength carrying the expected lengths and the actual
    length. *)
Lemma handleShorthandInset_length_counterexample :
  Forall DimensionValue [VNumber 1; VNumber 2; VNumber 3; VNumber 4; VNumber 5] ∧
  ¬ ∃ e, handleShorthandInset "inset"
           (VArray [VNumber 1; VNumber 2; VNumber 3; VNumber 4; VNumber 5]) = Throw e ∧
         InvalidShorthandLength e [1; 2; 3; 4] 5 ∧ carriesKey e "inset".
Proof.
  split; [dimensions |].
  intros (e & He & (msg & -> & _ & Hc) & _).
  injection He as <-.
  by apply (inset_message_reading
              [VNumber 1; VNumber 2; VNumber 3; VNumber 4; VNumber 5]) in Hc.
Qed.

Lemma handleShorthandGap_spec_witness :
  handleShorthandGap "gap" (VNumber 8) = Normal [("gap", VNumber 8)] ∧
  handleShorthandGap "gap" (VArray [VNumber 4; VNumber 6]) =
    Normal [("rowGap", VNumber 4); ("columnGap", VNumber 6)] ∧
  (∃ e, handleShorthandGap "gap" (VArray [VNumber 1; VNumber 2; VNumber 3]) = Throw e ∧
        InvalidShorthandLength e [1; 2] 3 ∧ carriesKey e "gap") ∧
  (∃ e, handleShorthandGap "gap" (VString "auto") = Throw e ∧
        InvalidShorthandValue e "gap" (VString "auto")).
Proof.
  destruct (handleShorthandGap_spec "gap") as (G0 & _ & G2 & G3 & G4 & _).
  split; [|split; [|split]].
  - apply G0. reflexivity.
  - apply G2. repeat (apply Forall_cons_2; [reflexivity |]). apply Forall_nil_2.
  - apply (G3 [VNumber 1; VNumber 2; VNumber 3]).
    + repeat (apply Forall_cons_2; [reflexivity |]). apply Forall_nil_2.
    + simpl. not_listed.
  - apply G4; [discriminate | reflexivity].
Defined.

(** The array [[1, , 3]], with a hole: [every] skips the hole, the array
    pattern reads it as [undefined]. *)
Lemma handleShorthandInset_shape_witness :
  handleShorthandInset "inset"
      (VSparseArray [Some (VNumber 1); None; Some (VNumber 3)]) =
    Normal [("top", VNumber 1); ("right", VUndefined);
            ("bottom", VNumber 3); ("left", VUndefined)] ∧
  Forall (λ x, DimensionValue x ∨ x = VUndefined)
         [VNumber 1; VUndefined; VNumber 3; VUndefined].
Proof.
  split; [reflexivity |].
  apply (handleShorthandInset_shape "inset"
           (VSparseArray [Some (VNumber 1); None; Some (VNumber 3)])
           [("top", VNumber 1); ("right", VUndefined);
            ("bottom", VNumber 3); ("left", VUndefined)] eq_refl).
Defined.

Lemma handleShorthandSpacing_shape_witness :
  ∃ o, handleShorthandSpacing "margin"
         (VArray [VNumber 1; VString "auto"; VNull]) = Normal o ∧
       1 ≤ length o ≤ 4 ∧
       NoDup o.*1 ∧
       Forall (λ name, String.prefix "margin" name = true) o.*1 ∧
       Forall DimensionValue o.*2.
Proof.
  eexists. split; [reflexivity |].
  destruct (handleShorthandSpacing_shape "margin"
              (VArray [VNumber 1; VString "auto"; VNull]) _ eq_refl)
    as (Hlen & Hnd & Hpre & _ & Hdense).
  split; [exact Hlen |]. split; [exact Hnd |]. split; [exact Hpre |].
  apply Hdense. intros slots [= <-].
  repeat (apply Forall_cons_2; [by eexists |]). apply Forall_nil_2.
Defined.

Lemma dimension_handlers_reject_witness :
  let v := VArray [VNumber 1; VString "wide"] in
  handleShorthandInset "inset" v = Throw (Error (dimensionMessage "inset" v)) ∧
  handleShorthandSpacing "inset" v = Throw (Error (dimensionMessage "inset" v)) ∧
  InvalidShorthandValue (Error (dimensionMessage "inset" v)) "inset" v ∧
  ∀ expected actual,
    ¬ InvalidShorthandLength (Error (dimensionMessage "inset" v)) expected actual.
Proof.
  intros v. apply (dimension_handlers_reject "inset" v).
  - apply DimensionValue_array.
  - intros slots [= <-] H. unfold Present in H.
    apply Forall_cons in H as [_ H]. apply Forall_cons in H as [H _].
    apply dimensionValueb_iff in H. discriminate H.
Defined.

Lemma handleShorthandInset_inheritance_witness :
  handleShorthandInset "inset" (VNumber 1) =
    handleShorthandInset "inset" (VArray [VNumber 1; VNumber 1; VNumber 1; VNumber 1]) ∧
  handleShorthandInset "inset" (VArray [VNumber 1]) =
    handleShorthandInset "inset" (VArray [VNumber 1; VNumber 1; VNumber 1; VNumber 1]) ∧
  handleShorthandInset "inset" (VArray [VNumber 1; VString "2%"]) =
    handleShorthandInset "inset"
      (VArray [VNumber 1; VString "2%"; VNumber 1; VString "2%"]) ∧
  handleShorthandInset "inset" (VArray [VNumber 1; VString "2%"; VNull]) =
    handleShorthandInset "inset" (VArray [VNumber 1; VString "2%"; VNull; VString "2%"]).
Proof.
  apply (handleShorthandInset_inheritance "inset" (VNumber 1) (VString "2%") VNull);
    dimension.
Defined.

Lemma handleShorthandSpacing_scalar_pair_witness :
  handleShorthandSpacing "padding" (VNumber 8) =
    handleShorthandSpacing "padding" (VArray [VNumber 8; VNumber 8]) ∧
  handleShorthandSpacing "padding" (VArray [VNumber 8]) ≠
    handleShorthandSpacing "padding" (VNumber 8).
Proof.
  apply (handleShorthandSpacing_scalar_pair "padding" (VNumber 8)). dimension.
Defined.

(** ** The classifier *)

Lemma isDimensionValue_returns_witness :
  isDimensionValue_expr (VString "12.5%") = Normal (VBool true) ∧
  isDimensionValue_expr (VString "12px") = Normal (VBool false) ∧
  isDimensionValue (VString "12px") = Normal false.
Proof.
  assert (Hpx : ¬ DimensionValue (VString "12px")).
  { intros H. apply dimensionValueb_iff in H. discriminate H. }
  destruct (isDimensionValue_returns (VString "12.5%")) as (Hyes & _).
  destruct (isDimensionValue_returns (VString "12px")) as (_ & Hraw & Hno & _).
  split; [apply Hyes; dimension |].
  split; [exact (Hraw Hpx) | exact (Hno Hpx)].
Defined.

(** C4, as the claim states it, fails: [undefined] and the empty string
    are not Dimension Values, and on them [isDimensionValue] returns
    [undefined] and the empty string, not [false]. *)
Lemma isDimensionValue_returns_counterexample :
  ¬ DimensionValue VUndefined ∧
  isDimensionValue_expr VUndefined = Normal VUndefined ∧
  ¬ DimensionValue (VString "") ∧
  isDimensionValue_expr (VString "") = Normal (VString "") ∧
  VUndefined ≠ VBool false ∧ VString "" ≠ VBool false.
Proof.
  split; [intros H; apply dimensionValueb_iff in H; discriminate H |].
  split; [reflexivity |].
  split; [intros H; apply dimensionValueb_iff in H; discriminate H |].
  split; [reflexivity |]. split; discriminate.
Qed.

Lemma isDimensionValue_string_witness :
  (∃ c rest, "12.5%" = String c rest ∧ isDigit c = true) ∧
  forallChars dimensionChar "12.5%" = true.
Proof.
  apply (isDimensionValue_string "12.5%"); [reflexivity | discriminate].
Defined.

(** ** Capitalising and trimming *)

Lemma capitalize_length_idemp_witness :
  String.length (capitalize "title") = String.length "title" ∧
  capitalize (capitalize "title") = capitalize "title".
Proof. apply (capitalize_length_idemp "title"). reflexivity. Defined.

Lemma scopedKey_capitalize_witness :
  scopedKey "card" (capitalize "title") = scopedKey "card" "title" ∧
  scopedKey "" "title" = "title".
Proof.
  apply (scopedKey_capitalize "card" "title"); [discriminate | reflexivity].
Defined.

Lemma trim_idemp_witness :
  trim (trim "  a b  ") = trim "  a b  " ∧ trim "   " = "" ∧
  trim "subtitle" = "subtitle".
Proof.
  destruct (trim_idemp "  a b  " "title, subtitle" eq_refl eq_refl) as (H1 & _ & H3).
  destruct (trim_idemp "   " "" eq_refl eq_refl) as (_ & H2 & _).
  split; [exact H1 |]. split; [by apply H2 |].
  apply H3. change (selectors "title, subtitle") with ["title"; "subtitle"].
  apply elem_of_cons. right. apply elem_of_cons. by left.
Defined.

(** ** The shared-selector scoper *)



Lemma handleSharedStyles_completion_witness :
  (handleSharedStyles "title, subtitle" "card" [("gap", VString "wide")] ∅).1 =
    Throws (Error (gapMessage "gap" (VString "wide"))).
Proof.
  assert (Hown : ownScope "title, subtitle" "card" [("gap", VString "wide")])
    by own_scope.
  exact (proj1 (handleSharedStyles_completion "title, subtitle" "card"
                  [("gap", VString "wide")] ∅ Hown)).
Defined.

Lemma handleSharedStyles_throws_witness :
  ∃ e,
    handleSharedStyles "title, subtitle" "card"
      ([("color", VString "red")] ++ ("gap", VString "wide") :: [("flex", VNumber 1)])
      ∅ =
    (Throws e, <["cardTitle" := objectAssign ∅ [("color", VString "red")]]> ∅).
Proof.
  exists (Error (gapMessage "gap" (VString "wide"))).
  assert (Hown : ownScope "title, subtitle" "card"
                   ([("color", VString "red")] ++
                    ("gap", VString "wide") :: [("flex", VNumber 1)]))
    by own_scope.
  exact (handleSharedStyles_throws "title, subtitle" "card"
           [("color", VString "red")] [("flex", VNumber 1)] "gap" (VString "wide")
           [("color", VString "red")] (Error (gapMessage "gap" (VString "wide")))
           ∅ "title" ["subtitle"] Hown eq_refl eq_refl eq_refl).
Defined.

Lemma handleSharedStyles_idemp_witness :
  let value := [("color", VString "red"); ("inset", VNumber 0)] in
  exec (handleSharedStyles "title, subtitle" "card" value)
       (exec (handleSharedStyles "title, subtitle" "card" value) ∅) =
    exec (handleSharedStyles "title, subtitle" "card" value) ∅.
Proof.
  intros value.
  apply (handleSharedStyles_idemp "title, subtitle" "card" value
           [("color", VString "red"); ("top", VNumber 0); ("right", VNumber 0);
            ("bottom", VNumber 0); ("left", VNumber 0)]).
  - own_scope.
  - reflexivity.
Defined.

Lemma handleSharedStyles_selector_set_witness :
  exec (handleSharedStyles "title, subtitle" "card" [("gap", VNumber 4)]) ∅ =
    exec (handleSharedStyles "subtitle,title , subtitle" "card" [("gap", VNumber 4)]) ∅.
Proof.
  apply (handleSharedStyles_selector_set "title, subtitle" "subtitle,title , subtitle"
           "card" [("gap", VNumber 4)] [("gap", VNumber 4)]).
  - own_scope.
  - own_scope.
  - reflexivity.
  - intros k.
    change (scopedKey "card" <$> selectors "title, subtitle")
      with ["cardTitle"; "cardSubtitle"].
    change (scopedKey "card" <$> selectors "subtitle,title , subtitle")
      with ["cardSubtitle"; "cardTitle"; "cardSubtitle"].
    rewrite !elem_of_cons, elem_of_nil. tauto.
Defined.

Lemma handleSharedStyles_last_wins_witness :
  (∃ b, exec (handleSharedStyles "overlay" "" ([("inset", VNumber 5)] ++ [("top", VNumber 1)])) ∅
          !! "overlay" = Some b ∧
        b !! "top" = Some (VNumber 1)) ∧
  (∃ b, exec (handleSharedStyles "overlay" "" ([("top", VNumber 1)] ++ [("inset", VNumber 5)])) ∅
          !! "overlay" = Some b ∧
        b !! "top" = Some (VNumber 5) ∧ b !! "right" = Some (VNumber 5) ∧
        b !! "bottom" = Some (VNumber 5) ∧ b !! "left" = Some (VNumber 5)).
Proof.
  assert (Hsel : "overlay" ∈ selectors "overlay").
  { change (selectors "overlay") with ["overlay"]. apply elem_of_cons. by left. }
  assert (Hinset : ownScope "overlay" "" [("inset", VNumber 5)]) by own_scope.
  assert (Htop : ownScope "overlay" "" [("top", VNumber 1)]) by own_scope.
  pose proof (handleSharedStyles_last_wins "overlay" "" [("inset", VNumber 5)]
                [("top", VNumber 5); ("right", VNumber 5); ("bottom", VNumber 5);
                 ("left", VNumber 5)] "top" (VNumber 1) ∅ "overlay"
                Hinset eq_refl Hsel) as [H1 _].
  pose proof (handleSharedStyles_last_wins "overlay" "" [("top", VNumber 1)]
                [("top", VNumber 1)] "top" (VNumber 5) ∅ "overlay"
                Htop eq_refl Hsel) as [_ H2].
  split.
  - apply H1; [reflexivity | discriminate].
  - apply H2. dimension.
Defined.

Lemma handleSharedStyles_plain_witness :
  let value := [("color", VString "red"); ("flex", VNumber 1)] in
  let map : styleMap := {["cardTitle" := {["opacity" := VNumber 0]}]} in
  (handleSharedStyles "title" "card" value map).1 = Returns tt ∧
  ∃ b, exec (handleSharedStyles "title" "card" value) map !! "cardTitle" = Some b ∧
       (∀ prop v, (prop, v) ∈ value → b !! prop = Some v) ∧
       (∀ prop, prop ∉ value.*1 →
          b !! prop = bucketOf map "cardTitle" !! prop).
Proof.
  intros value map.
  assert (Hown : ownScope "title" "card" value) by own_scope.
  assert (Hplain : Forall (λ p, includes specialShorthandKeys p.1 = false) value).
  { repeat (apply Forall_cons_2; [reflexivity |]). apply Forall_nil_2. }
  assert (Hnd : NoDup value.*1).
  { apply NoDup_cons_2; [simpl; not_listed |].
    apply NoDup_cons_2; [simpl; not_listed | apply NoDup_nil_2]. }
  assert (Hsel : "title" ∈ selectors "title").
  { change (selectors "title") with ["title"]. apply elem_of_cons. by left. }
  pose proof (handleSharedStyles_plain "title" "card" value map "title"
                Hown Hplain Hnd Hsel) as H.
  change (scopedKey "card" "title") with "cardTitle" in H.
  exact H.
Defined.

Lemma handleSharedStyles_dom_witness :
  dom (exec (handleSharedStyles "title, subtitle" "card" []) {["footer" := ∅]}) =
    dom ({["footer" := ∅]} : styleMap) ∪
    list_to_set (scopedKey "card" <$> selectors "title, subtitle").
Proof.
  apply (handleSharedStyles_dom "title, subtitle" "card" [] []);
    [own_scope | reflexivity].
Defined.

Lemma handleSharedStyles_empty_segment_witness :
  exec (handleSharedStyles "title, " "card" [("flex", VNumber 1)]) ∅ !! "card" =
    Some (objectAssign (bucketOf ∅ "card") [("flex", VNumber 1)]).
Proof.
  apply (handleSharedStyles_empty_segment "title, " "card" " "
           [("flex", VNumber 1)] [("flex", VNumber 1)]);
    [own_scope | | reflexivity | reflexivity].
  change (split "," "title, ") with ["title"; " "].
  apply elem_of_cons. right. apply elem_of_cons. by left.
Defined.

(** ** The frame *)



(** ** Plain assignment *)



Lemma assignFlatStyle_lookup_witness :
  ∃ b, exec (assignFlatStyle "card" "color" (VString "red")) ∅ !! "card" = Some b ∧
       b !! "color" = Some (VString "red").
Proof.
  destruct (assignFlatStyle_lookup ∅ "card" "color" (VString "red"))
    as (_ & b & Hb & Hcolor & _); [reflexivity | discriminate |].
  exists b. split; [exact Hb | exact Hcolor].
Defined.

Lemma assignFlatStyle_compose_witness :
  exec (assignFlatStyle "card" "flex" (VNumber 1))
       (exec (assignFlatStyle "card" "color" (VString "red")) ∅) =
    exec (assignFlatStyle "card" "color" (VString "red"))
         (exec (assignFlatStyle "card" "flex" (VNumber 1)) ∅) ∧
  exec (assignFlatStyle "card" "color" (VNumber 1))
       (exec (assignFlatStyle "card" "color" (VString "red")) ∅) =
    exec (assignFlatStyle "card" "color" (VNumber 1)) ∅.
Proof.
  apply (assignFlatStyle_compose ∅ "card" "color" "card" "flex"
           (VString "red") (VNumber 1));
    [reflexivity | reflexivity | discriminate..].
Defined.

(** ** The merge step *)



Lemma applySharedStyles_empty_witness :
  exec (applySharedStyles [("card", [("top", VNumber 1); ("left", VNumber 2)])]) ∅ =
    {["card" := {["top" := VNumber 1; "left" := VNumber 2]}]}.
Proof.
  destruct (applySharedStyles_empty ∅
              [("card", [("top", VNumber 1); ("left", VNumber 2)])]) as [_ H];
    [own_entries |].
  rewrite H. reflexivity.
Defined.

Lemma applySharedStyles_keeps_witness :
  let native : styleMap := {["card" := {["color" := VString "red"]}]} in
  let shared := [("card", [("top", VNumber 1)])] in
  dom (exec (applySharedStyles shared) native) = dom (asMap shared) ∪ dom native ∧
  ∃ b', exec (applySharedStyles shared) native !! "card" = Some b' ∧
        dom ({["color" := VString "red"]} : bucket) ⊆ dom b' ∧
        ∀ prop, bucketOf (asMap shared) "card" !! prop = None →
                b' !! prop = ({["color" := VString "red"]} : bucket) !! prop.
Proof.
  intros native shared.
  apply (applySharedStyles_keeps native shared "card" {["color" := VString "red"]}).
  - own_entries.
  - reflexivity.
Defined.

Lemma applySharedStyles_handleSharedStyles_witness :
  let value := [("padding", VArray [VNumber 10; VNumber 20])] in
  let native : styleMap := {["box" := {["flex" := VNumber 1]}]} in
  let collected :=
    [("box", [("paddingVertical", VNumber 10); ("paddingHorizontal", VNumber 20)])] in
  exec (applySharedStyles collected) native =
    exec (handleSharedStyles "box" "" value) native.
Proof.
  intros value native collected.
  apply (applySharedStyles_handleSharedStyles "box" "" value
           [("paddingVertical", VNumber 10); ("paddingHorizontal", VNumber 20)]).
  - own_scope.
  - reflexivity.
  - own_entries.
  - reflexivity.
Defined.
